(** * A shallow embedding of the struct-tag validator (package [validator])

    The Go package walks a value by reflection, reads the [validate]
    annotation of every struct field and applies one of four rules
    ([len], [in], [min], [max]).  This file embeds

    - the parts of the Go standard library the package calls
      ([unicode/utf8], [unicode], [strings], [strconv]), written after
      their Go sources and kept executable;
    - the reflection view of a value ([reflect.Kind], [Value],
      [StructField]);
    - the package itself, function by function, with run-time panics made
      explicit in the [exec] monad;

    and then states and proves the properties of the package.

    Conventions.  A Go [string] is a Rocq [string] (a sequence of bytes);
    Go's [int], [int64] and [rune] are [Z] (the package does no arithmetic
    on them, only comparisons; [strconv] range-checks what it parses).
    Values are finite trees, so pointer cycles (on which the Go code
    recurses forever) are not represented. *)

From Stdlib Require Import ZArith List String Ascii Bool Lia.
From Stdlib Require Import Strings.Byte.
Import ListNotations.

#[local] Set Warnings "-register-all".

Local Open Scope string_scope.
Local Open Scope list_scope.
Local Open Scope Z_scope.

(* ================================================================== *)
(** * Go strings as byte sequences *)

(** The numeric value of a byte. *)
Definition code (c : ascii) : Z := Z.of_N (N_of_ascii c).

(** [len(s)] *)
Definition len (s : string) : Z := Z.of_nat (String.length s).

(** [s[i]] for an index known to be in range; [0] otherwise (the callers
    below guard every access as the Go code does). *)
Definition at_ (s : string) (i : Z) : Z :=
  if i <? 0 then 0
  else match String.get (Z.to_nat i) s with
       | Some c => code c
       | None => 0
       end.

(** [s[i:]] *)
Fixpoint drop (n : nat) (s : string) : string :=
  match n, s with
  | O, _ => s
  | S k, EmptyString => EmptyString
  | S k, String _ t => drop k t
  end.

(** [s[:i]] *)
Fixpoint take (n : nat) (s : string) : string :=
  match n, s with
  | O, _ => EmptyString
  | S k, EmptyString => EmptyString
  | S k, String c t => String c (take k t)
  end.

(** [s[i:j]] *)
Definition slice (s : string) (i j : Z) : string :=
  take (Z.to_nat (j - i)) (drop (Z.to_nat i) s).

(* ================================================================== *)
(** * unicode/utf8 *)

Module utf8.

Definition RuneError : Z := 0xFFFD.
Definition RuneSelf : Z := 0x80.
Definition UTFMax : Z := 4.

Definition maskx : Z := 0x3F.
Definition mask2 : Z := 0x1F.
Definition mask3 : Z := 0x0F.
Definition mask4 : Z := 0x07.
Definition locb : Z := 0x80.
Definition hicb : Z := 0xBF.

(** Entries of the [first] table: the high nibble indexes
    [acceptRanges], the low three bits give the sequence length. *)
Definition xx : Z := 0xF1.
Definition as_ : Z := 0xF0.
Definition s1 : Z := 0x02.
Definition s2 : Z := 0x13.
Definition s3 : Z := 0x03.
Definition s4 : Z := 0x23.
Definition s5 : Z := 0x34.
Definition s6 : Z := 0x04.
Definition s7 : Z := 0x44.

(** The table [first[256]], by ranges of the leading byte. *)
Definition first (c : Z) : Z :=
  if c <? 0x80 then as_
  else if c <? 0xC2 then xx
  else if c <? 0xE0 then s1
  else if c =? 0xE0 then s2
  else if c <? 0xED then s3
  else if c =? 0xED then s4
  else if c <? 0xF0 then s3
  else if c =? 0xF0 then s5
  else if c <? 0xF4 then s6
  else if c =? 0xF4 then s7
  else xx.

(** The table [acceptRanges[16]]: bounds of the second byte. *)
Definition acceptRanges (i : Z) : Z * Z :=
  match i with
  | 0 => (locb, hicb)
  | 1 => (0xA0, hicb)
  | 2 => (locb, 0x9F)
  | 3 => (0x90, hicb)
  | 4 => (locb, 0x8F)
  | _ => (0, 0)
  end.

(** [DecodeRuneInString]: the first rune of [s] and its width in
    bytes; [(RuneError, 1)] on an invalid or short encoding. *)
Definition DecodeRuneInString (s : string) : Z * Z :=
  let n := len s in
  if n <? 1 then (RuneError, 0)
  else
    let s0 := at_ s 0 in
    let x := first s0 in
    if x >=? as_ then
      ((if x =? as_ then s0 else RuneError), 1)
    else
      let sz := Z.land x 7 in
      let '(lo, hi) := acceptRanges (Z.shiftr x 4) in
      if n <? sz then (RuneError, 1)
      else
        let c1 := at_ s 1 in
        if (c1 <? lo) || (hi <? c1) then (RuneError, 1)
        else if sz <=? 2 then
          (Z.lor (Z.shiftl (Z.land s0 mask2) 6) (Z.land c1 maskx), 2)
        else
          let c2 := at_ s 2 in
          if (c2 <? locb) || (hicb <? c2) then (RuneError, 1)
          else if sz <=? 3 then
            (Z.lor (Z.lor (Z.shiftl (Z.land s0 mask3) 12)
                          (Z.shiftl (Z.land c1 maskx) 6))
                   (Z.land c2 maskx), 3)
          else
            let c3 := at_ s 3 in
            if (c3 <? locb) || (hicb <? c3) then (RuneError, 1)
            else
              (Z.lor (Z.lor (Z.lor (Z.shiftl (Z.land s0 mask4) 18)
                                   (Z.shiftl (Z.land c1 maskx) 12))
                            (Z.shiftl (Z.land c2 maskx) 6))
                     (Z.land c3 maskx), 4).

(** [RuneStart(b)]: [b] is not a continuation byte. *)
Definition RuneStart (b : Z) : bool := negb (Z.land b 0xC0 =? 0x80).

(** The loop of [DecodeLastRuneInString] that walks back to the start
    of the last rune: [for start--; start >= lim; start--]. *)
Fixpoint backToStart (fuel : nat) (s : string) (start lim : Z) : Z :=
  match fuel with
  | O => start
  | S k =>
      if start <? lim then start
      else if RuneStart (at_ s start) then start
      else backToStart k s (start - 1) lim
  end.

Definition DecodeLastRuneInString (s : string) : Z * Z :=
  let end_ := len s in
  if end_ =? 0 then (RuneError, 0)
  else
    let start := end_ - 1 in
    let r := at_ s start in
    if r <? RuneSelf then (r, 1)
    else
      let lim := if end_ - UTFMax <? 0 then 0 else end_ - UTFMax in
      let start := backToStart 5 s (start - 1) lim in
      let start := if start <? 0 then 0 else start in
      let '(r, size) := DecodeRuneInString (slice s start end_) in
      if negb (start + size =? end_) then (RuneError, 1)
      else (r, size).

(** [RuneCountInString]: the number of runes in [s]; every byte of an
    invalid encoding counts as one rune of width 1.  Go's loop inlines
    the width computation of [DecodeRuneInString]; [fuel] bounds the
    number of iterations by the number of bytes. *)
Fixpoint countRunes (fuel : nat) (s : string) (n : Z) : Z :=
  match fuel with
  | O => n
  | S k =>
      match s with
      | EmptyString => n
      | _ =>
          let '(_, size) := DecodeRuneInString s in
          countRunes k (drop (Z.to_nat size) s) (n + 1)
      end
  end.

Definition RuneCountInString (s : string) : Z :=
  countRunes (String.length s) s 0.

End utf8.

(* ================================================================== *)
(** * unicode *)

Module unicode.

Definition MaxLatin1 : Z := 0xFF.

(** The ranges of the table [White_Space] above Latin-1. *)
Definition White_Space_above_Latin1 (r : Z) : bool :=
  (r =? 0x1680)
  || ((0x2000 <=? r) && (r <=? 0x200A))
  || ((0x2028 <=? r) && (r <=? 0x2029))
  || (r =? 0x202F) || (r =? 0x205F) || (r =? 0x3000).

(** [IsSpace(r)] *)
Definition IsSpace (r : Z) : bool :=
  if (0 <=? r) && (r <=? MaxLatin1) then
    (r =? 0x09) || (r =? 0x0A) || (r =? 0x0B) || (r =? 0x0C)
    || (r =? 0x0D) || (r =? 0x20) || (r =? 0x85) || (r =? 0xA0)
  else White_Space_above_Latin1 r.

End unicode.

(* ================================================================== *)
(** * strings *)

Module strings.

(** The table [asciiSpace]: tab, newline, vertical tab, form feed,
    carriage return, space. *)
Definition asciiSpace (c : Z) : bool :=
  (c =? 0x09) || (c =? 0x0A) || (c =? 0x0B) || (c =? 0x0C)
  || (c =? 0x0D) || (c =? 0x20).

(** [indexFunc(s, f, truth)]: [for i, r := range s]. *)
Fixpoint indexFunc_from (fuel : nat) (s : string) (f : Z -> bool)
         (truth : bool) (i : Z) : Z :=
  match fuel with
  | O => -1
  | S k =>
      if i <? len s then
        let '(r, size) := utf8.DecodeRuneInString (slice s i (len s)) in
        if Bool.eqb (f r) truth then i
        else indexFunc_from k s f truth (i + size)
      else -1
  end.

Definition indexFunc (s : string) (f : Z -> bool) (truth : bool) : Z :=
  indexFunc_from (String.length s) s f truth 0.

(** [lastIndexFunc(s, f, truth)]: [for i := len(s); i > 0; ]. *)
Fixpoint lastIndexFunc_from (fuel : nat) (s : string) (f : Z -> bool)
         (truth : bool) (i : Z) : Z :=
  match fuel with
  | O => -1
  | S k =>
      if 0 <? i then
        let '(r, size) := utf8.DecodeLastRuneInString (slice s 0 i) in
        let i := i - size in
        if Bool.eqb (f r) truth then i
        else lastIndexFunc_from k s f truth i
      else -1
  end.

Definition lastIndexFunc (s : string) (f : Z -> bool) (truth : bool) : Z :=
  lastIndexFunc_from (String.length s) s f truth (len s).

Definition TrimLeftFunc (s : string) (f : Z -> bool) : string :=
  let i := indexFunc s f false in
  if i =? -1 then "" else slice s i (len s).

Definition TrimRightFunc (s : string) (f : Z -> bool) : string :=
  let i := lastIndexFunc s f false in
  let i :=
    if (0 <=? i) && (at_ s i >=? utf8.RuneSelf) then
      let '(_, wid) := utf8.DecodeRuneInString (slice s i (len s)) in
      i + wid
    else i + 1 in
  slice s 0 i.

Definition TrimFunc (s : string) (f : Z -> bool) : string :=
  TrimRightFunc (TrimLeftFunc s f) f.

(** First loop of [TrimSpace]: skip leading ASCII spaces; the flag
    tells that a byte [>= RuneSelf] was met at [start]. *)
Fixpoint asciiStart (fuel : nat) (s : string) (start : Z) : bool * Z :=
  match fuel with
  | O => (false, start)
  | S k =>
      if start <? len s then
        let c := at_ s start in
        if c >=? utf8.RuneSelf then (true, start)
        else if asciiSpace c then asciiStart k s (start + 1)
        else (false, start)
      else (false, start)
  end.

(** Second loop of [TrimSpace]: skip trailing ASCII spaces. *)
Fixpoint asciiStop (fuel : nat) (s : string) (start stop : Z) : bool * Z :=
  match fuel with
  | O => (false, stop)
  | S k =>
      if start <? stop then
        let c := at_ s (stop - 1) in
        if c >=? utf8.RuneSelf then (true, stop)
        else if asciiSpace c then asciiStop k s start (stop - 1)
        else (false, stop)
      else (false, stop)
  end.

(** [TrimSpace(s)]: [s] without leading and trailing white space, as
    Unicode defines it. *)
Definition TrimSpace (s : string) : string :=
  let '(wide, start) := asciiStart (String.length s) s 0 in
  if wide then TrimFunc (slice s start (len s)) unicode.IsSpace
  else
    let '(wide, stop) := asciiStop (String.length s) s start (len s) in
    if wide then TrimRightFunc (slice s start stop) unicode.IsSpace
    else slice s start stop.

(** [Index(s, substr)]: the first position of [substr] in [s], or -1. *)
Fixpoint Index (s substr : string) : Z :=
  if String.prefix substr s then 0
  else match s with
       | EmptyString => -1
       | String _ t =>
           let m := Index t substr in
           if m <? 0 then -1 else m + 1
       end.

(** [Count(s, substr)] for a non-empty [substr]: the number of
    non-overlapping occurrences. *)
Fixpoint Count_from (fuel : nat) (s substr : string) (n : Z) : Z :=
  match fuel with
  | O => n
  | S k =>
      let i := Index s substr in
      if i =? -1 then n
      else Count_from k (slice s (i + len substr) (len s)) substr (n + 1)
  end.

Definition Count (s substr : string) : Z :=
  if len substr =? 0 then utf8.RuneCountInString s + 1
  else Count_from (String.length s) s substr 0.

(** The loop of [explode]: [n - 1] single runes, then the rest. *)
Fixpoint explode_loop (k : nat) (s : string) : list string :=
  match k with
  | O => [s]
  | S k' =>
      let '(_, size) := utf8.DecodeRuneInString s in
      slice s 0 size :: explode_loop k' (slice s size (len s))
  end.

Definition explode (s : string) (n : Z) : list string :=
  let l := utf8.RuneCountInString s in
  let n := if (n <? 0) || (l <? n) then l else n in
  if 0 <? n then explode_loop (Z.to_nat (n - 1)) s else [].

(** The loop of [genSplit]: at most [n] cuts, then the rest. *)
Fixpoint genSplit_loop (n : nat) (s sep : string) (sepSave : Z)
  : list string :=
  match n with
  | O => [s]
  | S k =>
      let m := Index s sep in
      if m <? 0 then [s]
      else slice s 0 (m + sepSave)
             :: genSplit_loop k (slice s (m + len sep) (len s)) sep sepSave
  end.

Definition genSplit (s sep : string) (sepSave n : Z) : list string :=
  if n =? 0 then []
  else if String.eqb sep "" then explode s n
  else
    let n := if n <? 0 then Count s sep + 1 else n in
    let n := if len s + 1 <? n then len s + 1 else n in
    genSplit_loop (Z.to_nat (n - 1)) s sep sepSave.

Definition SplitN (s sep : string) (n : Z) : list string :=
  genSplit s sep 0 n.

Definition Split (s sep : string) : list string :=
  genSplit s sep 0 (-1).

(** [HasSuffix(s, suffix)] *)
Definition HasSuffix (s suffix : string) : bool :=
  (len suffix <=? len s)
  && String.eqb (slice s (len s - len suffix) (len s)) suffix.

(** [TrimSuffix(s, suffix)] *)
Definition TrimSuffix (s suffix : string) : string :=
  if HasSuffix s suffix then slice s 0 (len s - len suffix) else s.

End strings.

Example TrimSpace_ascii : strings.TrimSpace "  len " = "len".
Proof. reflexivity. Qed.

Example SplitN_colon :
  strings.SplitN "in:a:b" ":" 2 = ["in"; "a:b"].
Proof. reflexivity. Qed.

Example SplitN_no_colon : strings.SplitN "len" ":" 2 = ["len"].
Proof. reflexivity. Qed.

Example Split_commas : strings.Split "1, 2,,x" "," = ["1"; " 2"; ""; "x"].
Proof. reflexivity. Qed.

(** A no-break space, a space, [5], a space, an em space and a tab. *)
Example TrimSpace_unicode :
  strings.TrimSpace
    (string_of_list_byte [xc2; xa0; x20; x35; x20; xe2; x80; x83; x09])
  = "5".
Proof. reflexivity. Qed.

(* ================================================================== *)
(** * strconv *)

Module strconv.

(** The causes a [*NumError] wraps. *)
Inductive NumError := ErrSyntax | ErrRange | ErrBase | ErrBitSize.

(** [IntSize]: the size of [int] on the 64-bit targets the package is
    built and tested on. *)
Definition IntSize : Z := 64.
Definition maxUint64 : Z := 2 ^ 64 - 1.

Definition lower (c : Z) : Z := Z.lor c 0x20.

(** The loop of [underscoreOK]; [saw] is one of the bytes
    '^' (94), '0' (48), '_' (95), '!' (33). *)
Fixpoint underscoreOK_loop (s : string) (hex : bool) (saw : Z) : bool :=
  match s with
  | EmptyString => negb (saw =? 95)
  | String a t =>
      let c := code a in
      if ((48 <=? c) && (c <=? 57))
         || (hex && (97 <=? lower c) && (lower c <=? 102))
      then underscoreOK_loop t hex 48
      else if c =? 95 then
        if negb (saw =? 48) then false else underscoreOK_loop t hex 95
      else if saw =? 95 then false
      else underscoreOK_loop t hex 33
  end.

(** [underscoreOK(s)]: underscores only separate digits (or follow the
    base prefix). *)
Definition underscoreOK (s : string) : bool :=
  let s :=
    if (1 <=? len s) && ((at_ s 0 =? 45) || (at_ s 0 =? 43))
    then slice s 1 (len s) else s in
  if (2 <=? len s) && (at_ s 0 =? 48)
     && ((lower (at_ s 1) =? 98) || (lower (at_ s 1) =? 111)
         || (lower (at_ s 1) =? 120))
  then underscoreOK_loop (slice s 2 (len s)) (lower (at_ s 1) =? 120) 48
  else underscoreOK_loop s false 94.

(** The digit loop of [ParseUint].  The result is [inl] of what an
    early [return] gives, or [inr (n, underscores)] when the loop runs
    to its end.  The arithmetic is that of [uint64]. *)
Fixpoint ParseUint_loop (s : string) (base : Z) (base0 : bool)
         (cutoff maxVal n : Z) (underscores : bool)
  : (Z * option NumError) + (Z * bool) :=
  match s with
  | EmptyString => inr (n, underscores)
  | String a t =>
      let c := code a in
      if (c =? 95) && base0 then
        ParseUint_loop t base base0 cutoff maxVal n true
      else
        let d :=
          if (48 <=? c) && (c <=? 57) then Some (c - 48)
          else if (97 <=? lower c) && (lower c <=? 122)
               then Some (lower c - 97 + 10)
               else None in
        match d with
        | None => inl (0, Some ErrSyntax)
        | Some d =>
            if d >=? base then inl (0, Some ErrSyntax)
            else if n >=? cutoff then inl (maxVal, Some ErrRange)
            else
              let n := (n * base) mod 2 ^ 64 in
              let n1 := (n + d) mod 2 ^ 64 in
              if (n1 <? n) || (maxVal <? n1)
              then inl (maxVal, Some ErrRange)
              else ParseUint_loop t base base0 cutoff maxVal n1 underscores
        end
  end.

(** [ParseUint(s, base, bitSize)] *)
Definition ParseUint (s : string) (base bitSize : Z) : Z * option NumError :=
  if String.eqb s "" then (0, Some ErrSyntax)
  else
    let base0 := base =? 0 in
    let s0 := s in
    let prefixed : option (Z * string) :=
      if (2 <=? base) && (base <=? 36) then Some (base, s)
      else if base =? 0 then
        if at_ s 0 =? 48 then
          if (3 <=? len s) && (lower (at_ s 1) =? 98)
          then Some (2, slice s 2 (len s))
          else if (3 <=? len s) && (lower (at_ s 1) =? 111)
          then Some (8, slice s 2 (len s))
          else if (3 <=? len s) && (lower (at_ s 1) =? 120)
          then Some (16, slice s 2 (len s))
          else Some (8, slice s 1 (len s))
        else Some (10, s)
      else None in
    match prefixed with
    | None => (0, Some ErrBase)
    | Some (base, s) =>
        if (bitSize <? 0) || (64 <? bitSize) then (0, Some ErrBitSize)
        else
          let bitSize := if bitSize =? 0 then IntSize else bitSize in
          let cutoff := maxUint64 / base + 1 in
          let maxVal := 2 ^ bitSize - 1 in
          match ParseUint_loop s base base0 cutoff maxVal 0 false with
          | inl r => r
          | inr (n, underscores) =>
              if underscores && negb (underscoreOK s0)
              then (0, Some ErrSyntax)
              else (n, None)
          end
    end.

(** [ParseInt(s, base, bitSize)] *)
Definition ParseInt (s : string) (base bitSize : Z) : Z * option NumError :=
  if String.eqb s "" then (0, Some ErrSyntax)
  else
    let neg := at_ s 0 =? 45 in
    let s' :=
      if (at_ s 0 =? 43) || (at_ s 0 =? 45) then slice s 1 (len s) else s in
    let '(un, err) := ParseUint s' base bitSize in
    match err with
    | Some ErrSyntax | Some ErrBase | Some ErrBitSize => (0, err)
    | _ =>
        let bitSize := if bitSize =? 0 then IntSize else bitSize in
        let cutoff := 2 ^ (bitSize - 1) in
        if negb neg && (un >=? cutoff) then (cutoff - 1, Some ErrRange)
        else if neg && (cutoff <? un) then (- cutoff, Some ErrRange)
        else (if neg then - un else un, None)
    end.

(** The digit loop of the fast path of [Atoi]; [ch -= '0'] is
    arithmetic on a byte. *)
Fixpoint Atoi_loop (s : string) (n : Z) : option Z :=
  match s with
  | EmptyString => Some n
  | String a t =>
      let ch := (code a - 48) mod 256 in
      if 9 <? ch then None else Atoi_loop t (n * 10 + ch)
  end.

(** [Atoi(s)] *)
Definition Atoi (s : string) : Z * option NumError :=
  let sLen := len s in
  if (0 <? sLen) && (sLen <? 19) then
    let signed := (at_ s 0 =? 45) || (at_ s 0 =? 43) in
    let s' := if signed then slice s 1 (len s) else s in
    if signed && (len s' <? 1) then (0, Some ErrSyntax)
    else
      match Atoi_loop s' 0 with
      | None => (0, Some ErrSyntax)
      | Some n => (if at_ s 0 =? 45 then - n else n, None)
      end
  else ParseInt s 10 0.

End strconv.

Example ParseInt_hex : strconv.ParseInt "0x1F" 0 64 = (31, None).
Proof. reflexivity. Qed.

Example ParseInt_octal : strconv.ParseInt "-017" 0 64 = (-15, None).
Proof. reflexivity. Qed.

Example ParseInt_underscore : strconv.ParseInt "1_000" 0 64 = (1000, None).
Proof. reflexivity. Qed.

Example ParseInt_letter :
  strconv.ParseInt "x" 0 64 = (0, Some strconv.ErrSyntax).
Proof. reflexivity. Qed.

Example ParseInt_min_int64 :
  strconv.ParseInt "-9223372036854775808" 0 64 = (- 2 ^ 63, None).
Proof. reflexivity. Qed.

Example ParseInt_too_big :
  strconv.ParseInt "9223372036854775808" 0 64
  = (2 ^ 63 - 1, Some strconv.ErrRange).
Proof. reflexivity. Qed.

Example Atoi_plain : strconv.Atoi "+10" = (10, None).
Proof. reflexivity. Qed.

Example Atoi_no_prefix : strconv.Atoi "0x10" = (0, Some strconv.ErrSyntax).
Proof. reflexivity. Qed.

(* ================================================================== *)
(** * reflect: the view the validator has of a value *)

Module reflect.

(** [reflect.Kind], in the order of the Go declaration. *)
Inductive Kind :=
| Invalid | Bool | Int | Int8 | Int16 | Int32 | Int64
| Uint | Uint8 | Uint16 | Uint32 | Uint64 | Uintptr
| Float32 | Float64 | Complex64 | Complex128
| Array | Chan | Func | Interface | Map | Ptr | Slice | String | Struct
| UnsafePointer.

(** The kinds whose values the validator never looks into. *)
Inductive Opaque :=
| OInvalid | OBool | OInt8 | OInt16 | OInt32 | OInt64
| OUint | OUint8 | OUint16 | OUint32 | OUint64 | OUintptr
| OFloat32 | OFloat64 | OComplex64 | OComplex128
| OChan | OFunc | OInterface | OMap | OUnsafePointer.

Definition Opaque_Kind (o : Opaque) : Kind :=
  match o with
  | OInvalid => Invalid | OBool => Bool
  | OInt8 => Int8 | OInt16 => Int16 | OInt32 => Int32 | OInt64 => Int64
  | OUint => Uint | OUint8 => Uint8 | OUint16 => Uint16
  | OUint32 => Uint32 | OUint64 => Uint64 | OUintptr => Uintptr
  | OFloat32 => Float32 | OFloat64 => Float64
  | OComplex64 => Complex64 | OComplex128 => Complex128
  | OChan => Chan | OFunc => Func | OInterface => Interface
  | OMap => Map | OUnsafePointer => UnsafePointer
  end.

(** [reflect.StructTag], in its parsed conventional form: the
    [key:"value"] pairs in the order they are written. *)
Definition StructTag := list (string * string).

(** [tag.Get(key)]: the value of the first pair with that key, or the
    empty string. *)
Fixpoint Get (tag : StructTag) (key : string) : string :=
  match tag with
  | [] => ""
  | (name, value) :: rest =>
      if String.eqb key name then value else Get rest key
  end.

(** [reflect.StructField]: [PkgPath] is empty for an exported field,
    [Anonymous] marks an embedded field. *)
Record StructField := {
  Name : string;
  PkgPath : string;
  Tag : StructTag;
  Anonymous : bool
}.

(** [reflect.Value].  A slice or array carries the kind of its static
    element type ([value.Type().Elem().Kind()]) and its elements; a
    struct carries its fields in declaration order, each with its
    [StructField]. *)
Inductive Value :=
| VString (s : string)
| VInt (i : Z)
| VPtr (elem : option Value)
| VStruct (fields : list (StructField * Value))
| VSlice (elemKind : Kind) (elems : list Value)
| VNilSlice (elemKind : Kind)
| VArray (elemKind : Kind) (elems : list Value)
| VOpaque (o : Opaque).

(** [value.Kind()] *)
Definition Value_Kind (value : Value) : Kind :=
  match value with
  | VString _ => String
  | VInt _ => Int
  | VPtr _ => Ptr
  | VStruct _ => Struct
  | VSlice _ _ | VNilSlice _ => Slice
  | VArray _ _ => Array
  | VOpaque o => Opaque_Kind o
  end.

(** [value.Len()], called on slices and arrays only. *)
Definition Len (value : Value) : Z :=
  match value with
  | VSlice _ elems | VArray _ elems => Z.of_nat (List.length elems)
  | _ => 0
  end.

(** [reflect.ValueOf(nil)]: the zero Value. *)
Definition zero : Value := VOpaque OInvalid.

End reflect.

Import reflect (Value, VString, VInt, VPtr, VStruct, VSlice, VNilSlice,
                VArray, VOpaque, StructField).

(** Induction on values that reaches the pointee of a pointer, the field
    values of a struct and the elements of a slice or array. *)
Section Value_induction.

Variable P : Value -> Prop.
Hypothesis HString : forall s, P (VString s).
Hypothesis HInt : forall i, P (VInt i).
Hypothesis HNil : P (VPtr None).
Hypothesis HPtr : forall e, P e -> P (VPtr (Some e)).
Hypothesis HStruct :
  forall fields, Forall (fun fv => P (snd fv)) fields -> P (VStruct fields).
Hypothesis HSlice : forall k elems, Forall P elems -> P (VSlice k elems).
Hypothesis HNilSlice : forall k, P (VNilSlice k).
Hypothesis HArray : forall k elems, Forall P elems -> P (VArray k elems).
Hypothesis HOpaque : forall o, P (VOpaque o).

Fixpoint Value_deep_ind (v : Value) : P v :=
  match v with
  | VString s => HString s
  | VInt i => HInt i
  | VPtr None => HNil
  | VPtr (Some e) => HPtr e (Value_deep_ind e)
  | VStruct fields =>
      HStruct fields
        ((fix go (l : list (StructField * Value))
            : Forall (fun fv => P (snd fv)) l :=
            match l with
            | [] => Forall_nil _
            | (fd, fv) :: rest =>
                Forall_cons (fd, fv) (Value_deep_ind fv) (go rest)
            end) fields)
  | VSlice k elems =>
      HSlice k elems
        ((fix go (l : list Value) : Forall P l :=
            match l with
            | [] => Forall_nil _
            | e :: rest => Forall_cons e (Value_deep_ind e) (go rest)
            end) elems)
  | VNilSlice k => HNilSlice k
  | VArray k elems =>
      HArray k elems
        ((fix go (l : list Value) : Forall P l :=
            match l with
            | [] => Forall_nil _
            | e :: rest => Forall_cons e (Value_deep_ind e) (go rest)
            end) elems)
  | VOpaque o => HOpaque o
  end.

End Value_induction.

(* ================================================================== *)
(** * Run-time panics *)

(** The one run-time error the package can raise: an index expression
    out of range. *)
Inductive runtimeError :=
| IndexOutOfRange (index length : Z).

(** A Go computation either returns or panics. *)
Inductive exec (A : Type) : Type :=
| Return (a : A)
| Panic (e : runtimeError).

Arguments Return {A} a.
Arguments Panic {A} e.

Definition bind {A B : Type} (m : exec A) (k : A -> exec B) : exec B :=
  match m with
  | Return a => k a
  | Panic e => Panic e
  end.

Notation "x <- m ;; k" := (bind m (fun x => k))
  (at level 61, m at next level, right associativity).

(** [s[i]] on a slice of strings, with Go's bounds check. *)
Definition index (s : list string) (i : Z) : exec string :=
  match (if i <? 0 then None else nth_error s (Z.to_nat i)) with
  | Some x => Return x
  | None => Panic (IndexOutOfRange i (Z.of_nat (List.length s)))
  end.

(** A loop [for ... { acc = f(x, acc) }] over the items of [l], in
    order; a panic in the body leaves the loop. *)
Definition forEach {A B : Type} (f : A -> B -> exec B)
  : list A -> B -> exec B :=
  fix loop (l : list A) (acc : B) : exec B :=
    match l with
    | [] => Return acc
    | x :: rest => acc' <- f x acc ;; loop rest acc'
    end.

(* ================================================================== *)
(** * Package validator: errors *)

Definition tagName : string := "validate".

Definition lenTag : string := "len".
Definition inTag : string := "in".
Definition minTag : string := "min".
Definition maxTag : string := "max".

(** The values of type [error] the package produces: its three
    package-level sentinels, and the values it allocates on the spot with
    [errors.New], which carry their text. *)
Inductive error :=
| ErrNotStruct
| ErrInvalidValidatorSyntax
| ErrValidateForUnexportedFields
| errors_New (text : string).

(** [err.Error()] *)
Definition Error (err : error) : string :=
  match err with
  | ErrNotStruct => "wrong argument given, should be a struct"
  | ErrInvalidValidatorSyntax => "invalid validator syntax"
  | ErrValidateForUnexportedFields =>
      "validation for unexported field is not allowed"
  | errors_New text => text
  end.

(** [errors.Is(err, target)].  These errors wrap nothing, so [Is] is
    identity; an error allocated by [errors.New] is never one of the
    sentinels, and two such allocations are told apart by their text. *)
Definition errors_Is (err target : error) : bool :=
  match err, target with
  | ErrNotStruct, ErrNotStruct => true
  | ErrInvalidValidatorSyntax, ErrInvalidValidatorSyntax => true
  | ErrValidateForUnexportedFields, ErrValidateForUnexportedFields => true
  | errors_New a, errors_New b => String.eqb a b
  | _, _ => false
  end.

Record ValidationError := { Err : error }.

Definition ValidationErrors := list ValidationError.

(** [func (v ValidationErrors) Is(target error) bool] *)
Fixpoint Is (v : ValidationErrors) (target : error) : bool :=
  match v with
  | [] => false
  | verr :: rest =>
      if errors_Is (Err verr) target then true else Is rest target
  end.

(** [fmt.Sprintf("%s: ", s)] *)
Definition Sprintf_s_colon (s : string) : string := (s ++ ": ")%string.

(** The loop of [ValidationErrors.Error]; [sb] is the content of the
    [strings.Builder]. *)
Fixpoint Error_loop (v : ValidationErrors) (sb : string) : string :=
  match v with
  | [] => sb
  | verr :: rest =>
      Error_loop rest (sb ++ Sprintf_s_colon (Error (Err verr)))%string
  end.

(** [func (v ValidationErrors) Error() string] *)
Definition ValidationErrors_Error (v : ValidationErrors) : string :=
  strings.TrimSuffix (Error_loop v "") ": ".

(** [append(errs, ValidationError{Err: err})] *)
Definition append_err (errs : ValidationErrors) (err : error)
  : ValidationErrors :=
  errs ++ [{| Err := err |}].

(* ================================================================== *)
(** * Package validator: the rules *)

(** [type validationFunc func(value reflect.Value) error]; [None] is the
    [nil] error. *)
Definition validationFunc := Value -> option error.

Definition getLenValidationFunc (length : Z) : validationFunc :=
  fun value =>
    match value with
    | VString s =>
        if negb (utf8.RuneCountInString s =? length)
        then Some (errors_New "invalid length")
        else None
    | VSlice _ _ | VNilSlice _ | VArray _ _ =>
        if negb (reflect.Len value =? length)
        then Some (errors_New "invalid length")
        else None
    | _ => Some (errors_New "invalid type of field for tag len")
    end.

(** The first loop of the [reflect.Int] case of the [in] rule: parse
    every entry, leaving at the first that does not parse. *)
Fixpoint parseEntries (strs : list string) (in_ : list Z) : option (list Z) :=
  match strs with
  | [] => Some in_
  | str :: rest =>
      match strconv.ParseInt (strings.TrimSpace str) 0 64 with
      | (_, Some _) => None
      | (value, None) => parseEntries rest (in_ ++ [value])
      end
  end.

Definition getInValidationFunc (strs : list string) : validationFunc :=
  fun value =>
    match value with
    | VString s =>
        if existsb (fun str => String.eqb s (strings.TrimSpace str)) strs
        then None
        else Some (errors_New "field value is not in array from tag")
    | VInt i =>
        match parseEntries strs [] with
        | None => Some ErrInvalidValidatorSyntax
        | Some in_ =>
            if existsb (fun v => v =? i) in_
            then None
            else Some (errors_New "field value is not in array from tag")
        end
    | _ => Some (errors_New "invalid type of field for tag in")
    end.

Definition getMinValidationFunc (min : Z) : validationFunc :=
  fun value =>
    match value with
    | VString s =>
        if utf8.RuneCountInString s <? min
        then Some (errors_New "string length less than min")
        else None
    | VSlice _ _ | VNilSlice _ | VArray _ _ =>
        if reflect.Len value <? min
        then Some (errors_New "slice length less than min")
        else None
    | VInt i =>
        if i <? min
        then Some (errors_New "int value less than min")
        else None
    | _ => Some (errors_New "invalid type of field for tag min")
    end.

Definition getMaxValidationFunc (max : Z) : validationFunc :=
  fun value =>
    match value with
    | VString s =>
        if max <? utf8.RuneCountInString s
        then Some (errors_New "string length greater than max")
        else None
    | VSlice _ _ | VNilSlice _ | VArray _ _ =>
        if max <? reflect.Len value
        then Some (errors_New "slice length greater than max")
        else None
    | VInt i =>
        if max <? i
        then Some (errors_New "int value greater than max")
        else None
    | _ => Some (errors_New "invalid type of field for tag max")
    end.

(** [getValidationFunc]: the rule, or the error ([inr]) of the Go pair
    [(validationFunc, error)]. *)
Definition getValidationFunc (funcName param : string)
  : validationFunc + error :=
  let funcName := strings.TrimSpace funcName in
  let param := strings.TrimSpace param in
  if String.eqb param "" then inr ErrInvalidValidatorSyntax
  else if String.eqb funcName lenTag then
    match strconv.Atoi param with
    | (_, Some _) => inr ErrInvalidValidatorSyntax
    | (length, None) => inl (getLenValidationFunc length)
    end
  else if String.eqb funcName inTag then
    let strs := strings.Split param "," in
    inl (getInValidationFunc strs)
  else if String.eqb funcName minTag then
    match strconv.ParseInt param 0 64 with
    | (_, Some _) => inr ErrInvalidValidatorSyntax
    | (min, None) => inl (getMinValidationFunc min)
    end
  else if String.eqb funcName maxTag then
    match strconv.ParseInt param 0 64 with
    | (_, Some _) => inr ErrInvalidValidatorSyntax
    | (max, None) => inl (getMaxValidationFunc max)
    end
  else inr ErrInvalidValidatorSyntax.

Definition parseValidateTag (validateTag : string)
  : exec (validationFunc + error) :=
  let s := strings.SplitN validateTag ":" 2 in
  s0 <- index s 0 ;;
  s1 <- index s 1 ;;
  Return (getValidationFunc s0 s1).

(* ================================================================== *)
(** * Package validator: the traversal *)

(** The loop of [validateField] that follows a field's pointers:
    [for fieldValue.Kind() == reflect.Ptr && !fieldValue.IsNil()]. *)
Fixpoint deref (fieldValue : Value) : Value :=
  match fieldValue with
  | VPtr (Some elem) => deref elem
  | _ => fieldValue
  end.

Definition validateField (fieldDefinition : StructField) (fieldValue : Value)
           (errs : ValidationErrors) : exec ValidationErrors :=
  let tag := reflect.Get (reflect.Tag fieldDefinition) tagName in
  if String.eqb tag "" || String.eqb tag "-" then Return errs
  else if negb (reflect.Anonymous fieldDefinition)
          && negb (String.eqb (reflect.PkgPath fieldDefinition) "")
  then Return (append_err errs ErrValidateForUnexportedFields)
  else
    parsed <- parseValidateTag tag ;;
    match parsed with
    | inr err => Return (append_err errs err)
    | inl vfunc =>
        let fieldValue := deref fieldValue in
        match vfunc fieldValue with
        | Some err => Return (append_err errs err)
        | None => Return errs
        end
    end.

Fixpoint validateStruct (value : Value) (errs : ValidationErrors)
  : exec ValidationErrors :=
  match value with
  | VPtr (Some elem) => validateStruct elem errs
  | VStruct fields =>
      forEach (fun field errs => validateField (fst field) (snd field) errs)
              fields errs
  | _ => Return (append_err errs ErrNotStruct)
  end.

(** The element kinds [deepValidate] descends into:
    [case reflect.Struct, reflect.Ptr, reflect.Array, reflect.Slice]. *)
Definition descends (elemKind : reflect.Kind) : bool :=
  match elemKind with
  | reflect.Struct | reflect.Ptr | reflect.Array | reflect.Slice => true
  | _ => false
  end.

Fixpoint deepValidate (value : Value) (errs : ValidationErrors)
  : exec ValidationErrors :=
  match value with
  | VPtr None => Return errs
  | VPtr (Some elem) => deepValidate elem errs
  | VStruct _ => validateStruct value errs
  | VArray elemKind elems | VSlice elemKind elems =>
      if descends elemKind then forEach deepValidate elems errs
      else Return (append_err errs ErrNotStruct)
  | VNilSlice elemKind =>
      if descends elemKind then Return errs
      else Return (append_err errs ErrNotStruct)
  | _ => Return (append_err errs ErrNotStruct)
  end.

(** [Validate(v)]: the argument is [reflect.ValueOf(v)]; the result is
    the Go [error], [None] for [nil]. *)
Definition Validate (v : Value) : exec (option ValidationErrors) :=
  errs <- deepValidate v [] ;;
  if 0 <? Z.of_nat (List.length errs) then Return (Some errs)
  else Return None.

(* ================================================================== *)
(** * Vocabulary of the specification *)

(** The annotation of a field: the value of its [validate] tag. *)
Definition annotation (fd : StructField) : string :=
  reflect.Get (reflect.Tag fd) tagName.

(** A field is exported when its [PkgPath] is empty, and accessible when
    it is exported or embedded. *)
Definition exported (fd : StructField) : bool :=
  String.eqb (reflect.PkgPath fd) "".

Definition accessible (fd : StructField) : bool :=
  exported fd || reflect.Anonymous fd.

(** [s] contains the byte [c]. *)
Fixpoint contains (s : string) (c : ascii) : bool :=
  match s with
  | EmptyString => false
  | String a t => Ascii.eqb a c || contains t c
  end.

(** [value.Type().Elem().Kind()] of a slice or array. *)
Definition elemKind (v : Value) : option reflect.Kind :=
  match v with
  | VSlice k _ | VNilSlice k | VArray k _ => Some k
  | _ => None
  end.

(** A sequence the traversal accepts: a slice or array whose element kind
    is record, pointer or sequence. *)
Definition qualifyingSequence (v : Value) : Prop :=
  (reflect.Value_Kind v = reflect.Slice \/ reflect.Value_Kind v = reflect.Array)
  /\ exists k, elemKind v = Some k
       /\ (k = reflect.Struct \/ k = reflect.Ptr
           \/ k = reflect.Slice \/ k = reflect.Array).

(** The error every rule returns for a value of a kind it does not
    handle. *)
Definition invalidFieldType (rule : string) : error :=
  errors_New (String.append "invalid type of field for tag " rule).

(** A chain of non-nil pointers that ends in a nil pointer. *)
Fixpoint nilAfter (n : nat) : Value :=
  match n with
  | O => VPtr None
  | S k => VPtr (Some (nilAfter k))
  end.

(** A struct type with one field, for the examples. *)
Definition field (name pkgPath tag : string) (anonymous : bool) : StructField :=
  {| reflect.Name := name;
     reflect.PkgPath := pkgPath;
     reflect.Tag := [(tagName, tag)];
     reflect.Anonymous := anonymous |}.

(* ================================================================== *)
(** * The annotation parser *)

Lemma Index_absent (s : string) (c : ascii) :
  contains s c = false -> strings.Index s (String c "") = -1.
Proof.
  induction s as [| a t IH]; simpl; intros H.
  - reflexivity.
  - apply orb_false_iff in H. destruct H as [Hac Ht].
    destruct (ascii_dec c a) as [-> | _].
    + rewrite Ascii.eqb_refl in Hac. discriminate.
    + rewrite (IH Ht). reflexivity.
Qed.

Lemma SplitN_absent (s : string) (c : ascii) :
  contains s c = false -> strings.SplitN s (String c "") 2 = [s].
Proof.
  intros H. unfold strings.SplitN, strings.genSplit.
  change (2 =? 0) with false. change (2 <? 0) with false.
  change (String.eqb (String c "") "") with false. cbv iota.
  destruct (len s + 1 <? 2) eqn:E.
  - assert (Hs : len s + 1 = 1).
    { apply Z.ltb_lt in E. unfold len in *. lia. }
    rewrite Hs. reflexivity.
  - change (Z.to_nat (2 - 1)) with 1%nat. simpl.
    rewrite (Index_absent _ _ H). reflexivity.
Qed.

(** An annotation without a colon: the split has one part, and taking
    its second part panics. *)
Lemma parseValidateTag_no_colon (tag : string) :
  contains tag ":" = false ->
  parseValidateTag tag = Panic (IndexOutOfRange 1 1).
Proof.
  intros H. unfold parseValidateTag.
  rewrite (SplitN_absent tag ":"%char H). reflexivity.
Qed.

(** A field that is validated: annotated and accessible. *)
Lemma validateField_parses (fd : StructField) (fv : Value)
      (errs : ValidationErrors) :
  annotation fd <> "" -> annotation fd <> "-" -> accessible fd = true ->
  validateField fd fv errs =
  (parsed <- parseValidateTag (annotation fd) ;;
   match parsed with
   | inr err => Return (append_err errs err)
   | inl vfunc =>
       match vfunc (deref fv) with
       | Some err => Return (append_err errs err)
       | None => Return errs
       end
   end).
Proof.
  intros He Hd Ha. unfold validateField. fold (annotation fd).
  apply String.eqb_neq in He, Hd. rewrite He, Hd. simpl.
  unfold accessible, exported in Ha.
  destruct (reflect.Anonymous fd), (String.eqb (reflect.PkgPath fd) "");
    simpl in *; try discriminate; reflexivity.
Qed.

(** C1 (as the code behaves): for an accessible field whose annotation is
    neither empty nor [-] and contains no colon, the parser indexes the
    one-element split out of range, and the panic aborts the validation of
    the field: no invalid-syntax error is recorded. *)
Theorem validateField_no_colon_panics (fd : StructField) (fv : Value)
        (errs : ValidationErrors) :
  annotation fd <> "" -> annotation fd <> "-" -> accessible fd = true ->
  contains (annotation fd) ":" = false ->
  parseValidateTag (annotation fd) = Panic (IndexOutOfRange 1 1)
  /\ validateField fd fv errs = Panic (IndexOutOfRange 1 1).
Proof.
  intros He Hd Ha Hc.
  rewrite (validateField_parses fd fv errs He Hd Ha).
  rewrite (parseValidateTag_no_colon _ Hc). split; reflexivity.
Qed.

Lemma validateField_no_colon_panics_witness :
  parseValidateTag "len" = Panic (IndexOutOfRange 1 1)
  /\ validateField (field "Name" "" "len" false) (VString "hello") []
     = Panic (IndexOutOfRange 1 1).
Proof.
  apply (validateField_no_colon_panics
           (field "Name" "" "len" false) (VString "hello") []);
    [ discriminate | discriminate | reflexivity | reflexivity ].
Defined.

(** The fault reaches the caller of [Validate]. *)
Example Validate_no_colon_panics :
  Validate (VStruct [(field "Name" "" "len" false, VString "hello")])
  = Panic (IndexOutOfRange 1 1).
Proof. reflexivity. Qed.

(* ================================================================== *)
(** * The field validator *)

(** C8: a field whose annotation is empty or [-] is left out: field
    validation returns the aggregate unchanged, whatever the field's
    visibility and value, before any accessibility check or parsing. *)
Theorem validateField_excluded (fd : StructField) (fv : Value)
        (errs : ValidationErrors) :
  annotation fd = "" \/ annotation fd = "-" ->
  validateField fd fv errs = Return errs.
Proof.
  intros H. unfold validateField. fold (annotation fd).
  destruct H as [-> | ->]; reflexivity.
Qed.

(** An unexported field without annotation whose value no rule accepts. *)
Lemma validateField_excluded_witness :
  validateField (field "hidden" "pkg" "-" false) (VOpaque reflect.OMap)
                [{| Err := ErrNotStruct |}]
  = Return [{| Err := ErrNotStruct |}].
Proof.
  apply (validateField_excluded (field "hidden" "pkg" "-" false)).
  right. reflexivity.
Defined.

(** C7: an annotated field that is not accessible (neither exported nor
    embedded) contributes exactly the unexported-field error; the result
    depends neither on the text of the annotation nor on the value, so the
    rule is neither parsed nor evaluated. *)
Theorem validateField_inaccessible (fd : StructField) (fv : Value)
        (errs : ValidationErrors) :
  annotation fd <> "" -> annotation fd <> "-" -> accessible fd = false ->
  validateField fd fv errs
  = Return (errs ++ [{| Err := ErrValidateForUnexportedFields |}]).
Proof.
  intros He Hd Ha. unfold validateField. fold (annotation fd).
  apply String.eqb_neq in He, Hd. rewrite He, Hd. simpl.
  unfold accessible, exported in Ha. apply orb_false_iff in Ha.
  destruct Ha as [-> ->]. reflexivity.
Qed.

(** The annotation [len:10] would fail on a five-letter text, and the
    annotation [len] would make the parser panic: neither happens. *)
Lemma validateField_inaccessible_witness :
  validateField (field "name" "pkg" "len:10" false) (VString "hello") []
  = Return [{| Err := ErrValidateForUnexportedFields |}]
  /\ validateField (field "name" "pkg" "len" false) (VString "hello") []
     = Return [{| Err := ErrValidateForUnexportedFields |}].
Proof.
  split.
  - apply (validateField_inaccessible
             (field "name" "pkg" "len:10" false) (VString "hello") []);
      [ discriminate | discriminate | reflexivity ].
  - apply (validateField_inaccessible
             (field "name" "pkg" "len" false) (VString "hello") []);
      [ discriminate | discriminate | reflexivity ].
Defined.

(** The guard of the code is the negation of [accessible]. *)
Lemma accessible_guard (fd : StructField) :
  negb (reflect.Anonymous fd) && negb (String.eqb (reflect.PkgPath fd) "")
  = negb (accessible fd).
Proof.
  unfold accessible, exported.
  destruct (reflect.Anonymous fd), (String.eqb (reflect.PkgPath fd) "");
    reflexivity.
Qed.

(** An embedded field is validated even when it is unexported. *)
Example validateField_embedded_unexported :
  validateField (field "base" "pkg" "len:10" true) (VString "hello") []
  = Return [{| Err := errors_New "invalid length" |}].
Proof. reflexivity. Qed.

(* ================================================================== *)
(** * The traversal: structural errors and empty collections *)

(** C2: a root value that is not a record, not a pointer and not a
    qualifying sequence yields an aggregate of exactly one error, which
    matches the sentinel [ErrNotStruct]. *)
Theorem Validate_not_struct (v : Value) :
  reflect.Value_Kind v <> reflect.Struct ->
  reflect.Value_Kind v <> reflect.Ptr ->
  ~ qualifyingSequence v ->
  exists errs,
    Validate v = Return (Some errs)
    /\ errs = [{| Err := ErrNotStruct |}]
    /\ List.length errs = 1%nat
    /\ Is errs ErrNotStruct = true.
Proof.
  intros HS HP HQ. exists [{| Err := ErrNotStruct |}].
  split; [| repeat split].
  assert (Hseq : forall k, elemKind v = Some k ->
                 reflect.Value_Kind v = reflect.Slice
                 \/ reflect.Value_Kind v = reflect.Array ->
                 descends k = false).
  { intros k Hk Hkind. destruct (descends k) eqn:E; [| reflexivity].
    exfalso. apply HQ. split; [exact Hkind |]. exists k. split; [exact Hk |].
    destruct k; try discriminate E; auto. }
  unfold Validate.
  destruct v as [s | i | p | fs | k elems | k | k elems | o]; simpl in *;
    try reflexivity; try congruence.
  - rewrite (Hseq k eq_refl (or_introl eq_refl)). reflexivity.
  - rewrite (Hseq k eq_refl (or_introl eq_refl)). reflexivity.
  - rewrite (Hseq k eq_refl (or_intror eq_refl)). reflexivity.
Qed.

(** A slice of integers. *)
Lemma Validate_not_struct_witness :
  exists errs,
    Validate (VSlice reflect.Int [VInt 1; VInt 2]) = Return (Some errs)
    /\ errs = [{| Err := ErrNotStruct |}]
    /\ List.length errs = 1%nat
    /\ Is errs ErrNotStruct = true.
Proof.
  apply (Validate_not_struct (VSlice reflect.Int [VInt 1; VInt 2])).
  - discriminate.
  - discriminate.
  - unfold qualifyingSequence. simpl.
    intros [_ [k [Hk [H | [H | [H | H]]]]]]; congruence.
Defined.

Example Validate_scalar :
  Validate (VInt 7) = Return (Some [{| Err := ErrNotStruct |}]).
Proof. reflexivity. Qed.

Example Validate_nil_interface :
  Validate reflect.zero = Return (Some [{| Err := ErrNotStruct |}]).
Proof. reflexivity. Qed.

(** C10: a slice (nil or not) or array of length zero whose element kind
    is record, pointer or sequence validates successfully. *)
Theorem Validate_empty_sequence (k : reflect.Kind) :
  k = reflect.Struct \/ k = reflect.Ptr
  \/ k = reflect.Slice \/ k = reflect.Array ->
  Validate (VSlice k []) = Return None
  /\ Validate (VNilSlice k) = Return None
  /\ Validate (VArray k []) = Return None.
Proof.
  intros [-> | [-> | [-> | ->]]]; repeat split; reflexivity.
Qed.

Lemma Validate_empty_sequence_witness :
  Validate (VSlice reflect.Struct []) = Return None
  /\ Validate (VNilSlice reflect.Struct) = Return None
  /\ Validate (VArray reflect.Struct []) = Return None.
Proof.
  apply (Validate_empty_sequence reflect.Struct). left. reflexivity.
Defined.

(* ================================================================== *)
(** * Well-formed text: UTF-8 and the number of code points *)

(** A Unicode scalar value: a code point that is not a surrogate. *)
Definition scalarValue (r : Z) : Prop :=
  (0 <= r < 0xD800) \/ (0xE000 <= r <= 0x10FFFF).

(** The byte with value [z]. *)
Definition byte_of (z : Z) : ascii := ascii_of_N (Z.to_N z).

(** The UTF-8 encoding of a code point (Unicode standard, table 3-6). *)
Definition encodeRune (r : Z) : string :=
  if r <? 0x80 then String (byte_of r) ""
  else if r <? 0x800 then
    String (byte_of (0xC0 + r / 64)) (String (byte_of (0x80 + r mod 64)) "")
  else if r <? 0x10000 then
    String (byte_of (0xE0 + r / 4096))
      (String (byte_of (0x80 + (r / 64) mod 64))
         (String (byte_of (0x80 + r mod 64)) ""))
  else
    String (byte_of (0xF0 + r / 262144))
      (String (byte_of (0x80 + (r / 4096) mod 64))
         (String (byte_of (0x80 + (r / 64) mod 64))
            (String (byte_of (0x80 + r mod 64)) ""))).

Fixpoint encode (runes : list Z) : string :=
  match runes with
  | [] => ""
  | r :: rest => encodeRune r ++ encode rest
  end.

Lemma code_byte_of (z : Z) : 0 <= z < 256 -> code (byte_of z) = z.
Proof.
  intros H. unfold code, byte_of. rewrite N_ascii_embedding.
  - apply Z2N.id. lia.
  - change 256%N with (Z.to_N 256). apply Z2N.inj_lt; lia.
Qed.

Lemma len_String a t : len (String a t) = 1 + len t.
Proof. unfold len. simpl String.length. lia. Qed.

Lemma len_nonneg s : 0 <= len s.
Proof. unfold len. lia. Qed.

Lemma at_0 a t : at_ (String a t) 0 = code a.
Proof. reflexivity. Qed.
Lemma at_1 a b t : at_ (String a (String b t)) 1 = code b.
Proof. reflexivity. Qed.
Lemma at_2 a b c t : at_ (String a (String b (String c t))) 2 = code c.
Proof. reflexivity. Qed.
Lemma at_3 a b c d t :
  at_ (String a (String b (String c (String d t)))) 3 = code d.
Proof. reflexivity. Qed.

Lemma decode_width_1 r rest :
  0 <= r < 0x80 ->
  snd (utf8.DecodeRuneInString (String (byte_of r) rest)) = 1.
Proof.
  intros H. unfold utf8.DecodeRuneInString.
  rewrite len_String, at_0, code_byte_of by lia.
  pose proof (len_nonneg rest).
  destruct (Z.ltb_spec (1 + len rest) 1); [lia |].
  unfold utf8.first.
  destruct (Z.ltb_spec r 128); [| lia]. reflexivity.
Qed.

Definition continuation (c : Z) : Prop := 0x80 <= c <= 0xBF.

Lemma first_cases (c : Z) :
  0 <= c < 256 ->
  (c < 0x80 /\ utf8.first c = utf8.as_)
  \/ ((c < 0xC2 \/ 0xF4 < c) /\ 0x80 <= c /\ utf8.first c = utf8.xx)
  \/ (0xC2 <= c < 0xE0 /\ utf8.first c = utf8.s1)
  \/ (c = 0xE0 /\ utf8.first c = utf8.s2)
  \/ ((0xE0 < c < 0xED \/ 0xED < c < 0xF0) /\ utf8.first c = utf8.s3)
  \/ (c = 0xED /\ utf8.first c = utf8.s4)
  \/ (c = 0xF0 /\ utf8.first c = utf8.s5)
  \/ (0xF0 < c < 0xF4 /\ utf8.first c = utf8.s6)
  \/ (c = 0xF4 /\ utf8.first c = utf8.s7).
Proof.
  intros H. unfold utf8.first.
  destruct (Z.ltb_spec c 0x80); [left; split; [lia | reflexivity] |].
  destruct (Z.ltb_spec c 0xC2); [right; left; repeat split; try lia |].
  destruct (Z.ltb_spec c 0xE0); [do 2 right; left; split; [lia | reflexivity] |].
  destruct (Z.eqb_spec c 0xE0); [do 3 right; left; split; [lia | reflexivity] |].
  destruct (Z.ltb_spec c 0xED); [do 4 right; left; split; [lia | reflexivity] |].
  destruct (Z.eqb_spec c 0xED); [do 5 right; left; split; [lia | reflexivity] |].
  destruct (Z.ltb_spec c 0xF0); [do 4 right; left; split; [lia | reflexivity] |].
  destruct (Z.eqb_spec c 0xF0); [do 6 right; left; split; [lia | reflexivity] |].
  destruct (Z.ltb_spec c 0xF4); [do 7 right; left; split; [lia | reflexivity] |].
  destruct (Z.eqb_spec c 0xF4); [do 8 right; split; [lia | reflexivity] |].
  right; left; repeat split; lia.
Qed.

(** The bounds of the second byte that go with a leading byte. *)
Definition second (c0 c1 : Z) : Prop :=
  (c0 = 0xE0 -> 0xA0 <= c1) /\ (c0 = 0xED -> c1 <= 0x9F)
  /\ (c0 = 0xF0 -> 0x90 <= c1) /\ (c0 = 0xF4 -> c1 <= 0x8F)
  /\ continuation c1.

Ltac lead_byte a :=
  destruct (first_cases (code a))
    as [[? ?E] | [[? [? ?E]] | [[? ?E] | [[? ?E] | [[? ?E] | [[? ?E]
        | [[? ?E] | [[? ?E] | [? ?E]]]]]]]]];
  try lia; rewrite E.

Ltac in_range :=
  repeat match goal with
         | |- context [?x <? ?y] => destruct (Z.ltb_spec x y); try lia
         end.

Lemma decode_width_2 a b rest :
  0xC2 <= code a < 0xE0 -> continuation (code b) ->
  snd (utf8.DecodeRuneInString (String a (String b rest))) = 2.
Proof.
  unfold continuation. intros Ha Hb. unfold utf8.DecodeRuneInString.
  rewrite !len_String, at_0, at_1. pose proof (len_nonneg rest).
  destruct (Z.ltb_spec (1 + (1 + len rest)) 1); [lia |].
  lead_byte a; cbn -[Z.add len Z.ltb];
    unfold utf8.locb, utf8.hicb; in_range; reflexivity.
Qed.

Lemma decode_width_3 a b c rest :
  0xE0 <= code a < 0xF0 -> second (code a) (code b) ->
  continuation (code c) ->
  snd (utf8.DecodeRuneInString (String a (String b (String c rest)))) = 3.
Proof.
  unfold second, continuation. intros Ha (H0 & HD & _ & _ & Hb) Hc.
  unfold utf8.DecodeRuneInString.
  rewrite !len_String, at_0, at_1, at_2. pose proof (len_nonneg rest).
  destruct (Z.ltb_spec (1 + (1 + (1 + len rest))) 1); [lia |].
  lead_byte a; cbn -[Z.add len Z.ltb];
    unfold utf8.locb, utf8.hicb; in_range; reflexivity.
Qed.

Lemma decode_width_4 a b c d rest :
  0xF0 <= code a <= 0xF4 -> second (code a) (code b) ->
  continuation (code c) -> continuation (code d) ->
  snd (utf8.DecodeRuneInString
         (String a (String b (String c (String d rest))))) = 4.
Proof.
  unfold second, continuation. intros Ha (_ & _ & H0 & H4 & Hb) Hc Hd.
  unfold utf8.DecodeRuneInString.
  rewrite !len_String, at_0, at_1, at_2, at_3. pose proof (len_nonneg rest).
  destruct (Z.ltb_spec (1 + (1 + (1 + (1 + len rest)))) 1); [lia |].
  lead_byte a; cbn -[Z.add len Z.ltb];
    unfold utf8.locb, utf8.hicb; in_range; reflexivity.
Qed.

(** The decoder reads back the width of what the encoder wrote. *)
Lemma decode_encodeRune (r : Z) (rest : string) :
  scalarValue r ->
  snd (utf8.DecodeRuneInString (encodeRune r ++ rest))
  = len (encodeRune r).
Proof.
  unfold scalarValue, encodeRune. intros Hr.
  destruct (Z.ltb_spec r 0x80).
  { apply decode_width_1. lia. }
  destruct (Z.ltb_spec r 0x800).
  { apply decode_width_2; unfold continuation;
      rewrite code_byte_of; Z.div_mod_to_equations; lia. }
  destruct (Z.ltb_spec r 0x10000).
  { apply decode_width_3; unfold second, continuation;
      rewrite ?code_byte_of; Z.div_mod_to_equations; lia. }
  apply decode_width_4; unfold second, continuation;
    rewrite ?code_byte_of; Z.div_mod_to_equations; lia.
Qed.

Lemma encodeRune_nonempty (r : Z) :
  exists a t, encodeRune r = String a t.
Proof.
  unfold encodeRune.
  destruct (r <? 0x80); [eauto |].
  destruct (r <? 0x800); [eauto |].
  destruct (r <? 0x10000); eauto.
Qed.

Lemma drop_app (s t : string) : drop (String.length s) (s ++ t) = t.
Proof. induction s; simpl; auto. Qed.

Lemma length_app (s t : string) :
  String.length (s ++ t) = (String.length s + String.length t)%nat.
Proof. induction s; simpl; auto. Qed.

Lemma countRunes_String (k : nat) (a : ascii) (t : string) (n : Z) :
  utf8.countRunes (S k) (String a t) n
  = utf8.countRunes k
      (drop (Z.to_nat (snd (utf8.DecodeRuneInString (String a t))))
            (String a t))
      (n + 1).
Proof.
  simpl utf8.countRunes.
  destruct (utf8.DecodeRuneInString (String a t)). reflexivity.
Qed.

Lemma countRunes_encode (runes : list Z) :
  Forall scalarValue runes ->
  forall (k : nat) (n : Z),
    (String.length (encode runes) <= k)%nat ->
    utf8.countRunes k (encode runes) n = n + Z.of_nat (List.length runes).
Proof.
  induction 1 as [| r rest Hr _ IH]; intros k n Hk.
  - simpl. destruct k; simpl; lia.
  - simpl encode in *. rewrite length_app in Hk.
    destruct (encodeRune_nonempty r) as (a & t & E).
    pose proof (decode_encodeRune r (encode rest) Hr) as Hw.
    rewrite E in *. simpl String.length in Hk.
    destruct k as [| k]; [lia |].
    change (String a t ++ encode rest)%string
      with (String a (t ++ encode rest)%string) in *.
    rewrite countRunes_String, Hw.
    unfold len. rewrite Nat2Z.id.
    change (String a (t ++ encode rest)%string)
      with (String a t ++ encode rest)%string.
    rewrite drop_app, IH by lia.
    simpl List.length. lia.
Qed.

(** On well-formed text [RuneCountInString] is the number of code
    points. *)
Lemma RuneCountInString_encode (runes : list Z) :
  Forall scalarValue runes ->
  utf8.RuneCountInString (encode runes) = Z.of_nat (List.length runes).
Proof.
  intros H. unfold utf8.RuneCountInString.
  rewrite (countRunes_encode runes H) by lia. lia.
Qed.

(* ================================================================== *)
(** * The rules *)

(** What a rule measures: the number of runes of a text, the number of
    elements of a sequence, the value of an integer. *)
Definition measure (v : Value) : option Z :=
  match v with
  | VString s => Some (utf8.RuneCountInString s)
  | VSlice _ _ | VNilSlice _ | VArray _ _ => Some (reflect.Len v)
  | VInt i => Some i
  | _ => None
  end.

Definition isText (v : Value) : Prop :=
  reflect.Value_Kind v = reflect.String.

Definition isSequence (v : Value) : Prop :=
  reflect.Value_Kind v = reflect.Slice \/ reflect.Value_Kind v = reflect.Array.

Definition isInteger (v : Value) : Prop :=
  reflect.Value_Kind v = reflect.Int.

Lemma Opaque_Kind_other (o : reflect.Opaque) :
  let k := reflect.Opaque_Kind o in
  k <> reflect.String /\ k <> reflect.Int /\ k <> reflect.Ptr
  /\ k <> reflect.Struct /\ k <> reflect.Slice /\ k <> reflect.Array.
Proof. destruct o; simpl; repeat split; discriminate. Qed.

Lemma isText_inv (v : Value) : isText v -> exists s, v = VString s.
Proof.
  unfold isText. destruct v; simpl; try discriminate; eauto.
  intros H. destruct (Opaque_Kind_other o) as (H1 & _). contradiction.
Qed.

Lemma isInteger_inv (v : Value) : isInteger v -> exists i, v = VInt i.
Proof.
  unfold isInteger. destruct v; simpl; try discriminate; eauto.
  intros H. destruct (Opaque_Kind_other o) as (_ & H1 & _). contradiction.
Qed.

Lemma isSequence_inv (v : Value) :
  isSequence v ->
  (exists k elems, v = VSlice k elems) \/ (exists k, v = VNilSlice k)
  \/ (exists k elems, v = VArray k elems).
Proof.
  unfold isSequence. destruct v; simpl; intros [H | H];
    try discriminate; eauto.
  - destruct (Opaque_Kind_other o) as (_ & _ & _ & _ & H1 & _). contradiction.
  - destruct (Opaque_Kind_other o) as (_ & _ & _ & _ & _ & H1). contradiction.
Qed.

Ltac invert_kind H :=
  first
    [ apply isText_inv in H; destruct H as [? ->]
    | apply isInteger_inv in H; destruct H as [? ->]
    | apply isSequence_inv in H;
      destruct H as [(? & ? & ->) | [(? & ->) | (? & ? & ->)]] ].

(** A value that is neither text, sequence nor integer: what the rules
    see of it is only that its kind is none of theirs. *)
Lemma other_kind_inv (v : Value) :
  ~ isText v -> ~ isSequence v ->
  (exists p, v = VPtr p) \/ (exists fs, v = VStruct fs)
  \/ (exists i, v = VInt i) \/ (exists o, v = VOpaque o).
Proof.
  unfold isText, isSequence. intros HT HS.
  destruct v; simpl in *; eauto 6.
  - exfalso; apply HT; reflexivity.
  - exfalso; apply HS; left; reflexivity.
  - exfalso; apply HS; left; reflexivity.
  - exfalso; apply HS; right; reflexivity.
Qed.

(** On a sequence the rules look at [value.Len()] only. *)
Lemma getLenValidationFunc_sequence (n : Z) (v : Value) :
  isSequence v ->
  getLenValidationFunc n v
  = if negb (reflect.Len v =? n) then Some (errors_New "invalid length")
    else None.
Proof. intros H. invert_kind H; reflexivity. Qed.

(** C4: the [len] rule succeeds on a text iff its rune count (not its
    byte length) is [n], succeeds on a sequence iff its element count is
    [n], fails with the length error otherwise, and returns the
    invalid-field-type error for a value of any other kind.  On the
    UTF-8 encoding of a sequence of code points the rune count is the
    number of code points. *)
Theorem getLenValidationFunc_spec (n : Z) :
  (forall s,
      (getLenValidationFunc n (VString s) = None
       <-> utf8.RuneCountInString s = n)
      /\ (utf8.RuneCountInString s <> n ->
          getLenValidationFunc n (VString s)
          = Some (errors_New "invalid length")))
  /\ (forall v, isSequence v ->
      (getLenValidationFunc n v = None <-> reflect.Len v = n)
      /\ (reflect.Len v <> n ->
          getLenValidationFunc n v = Some (errors_New "invalid length")))
  /\ (forall v, ~ isText v -> ~ isSequence v ->
      getLenValidationFunc n v = Some (invalidFieldType lenTag))
  /\ (forall runes, Forall scalarValue runes ->
      (getLenValidationFunc n (VString (encode runes)) = None
       <-> Z.of_nat (List.length runes) = n)).
Proof.
  assert (Htext : forall s,
             getLenValidationFunc n (VString s) = None
             <-> utf8.RuneCountInString s = n).
  { intros s. unfold getLenValidationFunc.
    destruct (Z.eqb_spec (utf8.RuneCountInString s) n); simpl;
      split; congruence. }
  split; [| split; [| split]]; cycle 3.
  { intros runes H. rewrite Htext, (RuneCountInString_encode runes H).
    reflexivity. }
  - intros s. unfold getLenValidationFunc.
    destruct (Z.eqb_spec (utf8.RuneCountInString s) n); simpl; split;
      try (split; congruence); congruence.
  - intros v H. rewrite (getLenValidationFunc_sequence n v H).
    destruct (Z.eqb_spec (reflect.Len v) n); simpl; split;
      try (split; congruence); congruence.
  - intros v HT HS.
    destruct (other_kind_inv v HT HS) as [[? ->] | [[? ->] | [[? ->] | [? ->]]]];
      reflexivity.
Qed.

Lemma measure_kinds (v : Value) :
  (isText v \/ isSequence v \/ isInteger v) <-> measure v <> None.
Proof.
  split.
  - intros [H | [H | H]]; invert_kind H; discriminate.
  - unfold isText, isSequence, isInteger.
    destruct v; simpl; intros H; auto; contradiction.
Qed.

(** The measure of a well-formed text is its number of code points. *)
Lemma measure_encode (runes : list Z) :
  Forall scalarValue runes ->
  measure (VString (encode runes)) = Some (Z.of_nat (List.length runes)).
Proof.
  intros H. simpl. rewrite (RuneCountInString_encode runes H). reflexivity.
Qed.

Lemma measure_other (v : Value) :
  measure v = None ->
  (exists p, v = VPtr p) \/ (exists fs, v = VStruct fs)
  \/ (exists o, v = VOpaque o).
Proof. destruct v; simpl; intros H; try discriminate; eauto. Qed.

Lemma getMinValidationFunc_measure (n : Z) (v : Value) (m : Z) :
  measure v = Some m ->
  getMinValidationFunc n v = None <-> n <= m.
Proof.
  destruct v; simpl; intros H; inversion H; subst; clear H;
    match goal with
    | |- context [?a <? n] => destruct (Z.ltb_spec a n)
    end; split; intros; try discriminate; try reflexivity; lia.
Qed.

Lemma getMaxValidationFunc_measure (n : Z) (v : Value) (m : Z) :
  measure v = Some m ->
  getMaxValidationFunc n v = None <-> m <= n.
Proof.
  destruct v; simpl; intros H; inversion H; subst; clear H;
    match goal with
    | |- context [n <? ?a] => destruct (Z.ltb_spec n a)
    end; split; intros; try discriminate; try reflexivity; lia.
Qed.

(** C5: on a value with a measure (text, sequence, integer) the [min]
    rule fails iff the measure is strictly less than [n] and the [max]
    rule fails iff it is strictly greater; both succeed at equality; on a
    value of any other kind both return the invalid-field-type error. *)
Theorem min_max_spec (n : Z) (v : Value) :
  (forall m, measure v = Some m ->
     (getMinValidationFunc n v <> None <-> m < n)
     /\ (getMaxValidationFunc n v <> None <-> n < m)
     /\ (m = n -> getMinValidationFunc n v = None
                  /\ getMaxValidationFunc n v = None))
  /\ (~ isText v -> ~ isSequence v -> ~ isInteger v ->
      getMinValidationFunc n v = Some (invalidFieldType minTag)
      /\ getMaxValidationFunc n v = Some (invalidFieldType maxTag)).
Proof.
  split.
  - intros m Hm.
    pose proof (getMinValidationFunc_measure n v m Hm) as Hmin.
    pose proof (getMaxValidationFunc_measure n v m Hm) as Hmax.
    repeat split.
    + intros H. destruct (Z.lt_ge_cases m n) as [Hlt | Hge]; [exact Hlt |].
      exfalso. apply H. apply Hmin. lia.
    + intros Hlt H. apply Hmin in H. lia.
    + intros H. destruct (Z.lt_ge_cases n m) as [Hlt | Hge]; [exact Hlt |].
      exfalso. apply H. apply Hmax. lia.
    + intros Hlt H. apply Hmax in H. lia.
    + apply Hmin. lia.
    + apply Hmax. lia.
  - intros HT HS HI.
    assert (Hm : measure v = None).
    { destruct (measure v) eqn:E; [| reflexivity]. exfalso.
      assert (Hk : measure v <> None) by congruence.
      apply measure_kinds in Hk. tauto. }
    destruct (measure_other v Hm) as [[? ->] | [[? ->] | [? ->]]];
      split; reflexivity.
Qed.

(** The failures of [min] and [max] are length or value errors, not type
    errors; spec section 8: a sequence of length 3 passes [min:2] and
    [max:4], length 1 fails [min:2], length 5 fails [max:4]. *)
Example min_max_on_sequences :
  let seq n := VSlice reflect.Int (repeat (VInt 0) n) in
  getMinValidationFunc 2 (seq 3%nat) = None
  /\ getMaxValidationFunc 4 (seq 3%nat) = None
  /\ getMinValidationFunc 2 (seq 1%nat)
     = Some (errors_New "slice length less than min")
  /\ getMaxValidationFunc 4 (seq 5%nat)
     = Some (errors_New "slice length greater than max").
Proof. repeat split; reflexivity. Qed.

(** A five-rune text: [h], [e-acute] (two bytes), [l], [l], [o]. *)
Definition hello_acute : string :=
  string_of_list_byte [x68; xc3; xa9; x6c; x6c; x6f].

Example len_counts_runes :
  hello_acute = encode [0x68; 0xE9; 0x6C; 0x6C; 0x6F]
  /\ len hello_acute = 6
  /\ utf8.RuneCountInString hello_acute = 5
  /\ getLenValidationFunc 5 (VString hello_acute) = None
  /\ getLenValidationFunc 6 (VString hello_acute)
     = Some (errors_New "invalid length")
  /\ getLenValidationFunc 5 (VString "hello") = None
  /\ getLenValidationFunc 5 (VString "hell")
     = Some (errors_New "invalid length")
  /\ getLenValidationFunc 5 (VString "helloo")
     = Some (errors_New "invalid length").
Proof. repeat split; reflexivity. Qed.

(* ================================================================== *)
(** * Rule construction *)

(** The rules [getValidationFunc] can build. *)
Inductive builds : string -> validationFunc -> Prop :=
| builds_len (length : Z) : builds lenTag (getLenValidationFunc length)
| builds_in (strs : list string) : builds inTag (getInValidationFunc strs)
| builds_min (min : Z) : builds minTag (getMinValidationFunc min)
| builds_max (max : Z) : builds maxTag (getMaxValidationFunc max).

#[local] Hint Constructors builds : core.

Lemma getValidationFunc_builds (funcName param : string)
      (vfunc : validationFunc) :
  getValidationFunc funcName param = inl vfunc ->
  builds (strings.TrimSpace funcName) vfunc.
Proof.
  unfold getValidationFunc.
  destruct (String.eqb (strings.TrimSpace param) ""); [discriminate |].
  destruct (String.eqb_spec (strings.TrimSpace funcName) lenTag) as [-> | _].
  { destruct (strconv.Atoi _) as [n [e |]]; intros H; inversion H; auto. }
  destruct (String.eqb_spec (strings.TrimSpace funcName) inTag) as [-> | _].
  { intros H; inversion H; auto. }
  destruct (String.eqb_spec (strings.TrimSpace funcName) minTag) as [-> | _].
  { destruct (strconv.ParseInt _ _ _) as [n [e |]]; intros H; inversion H; auto. }
  destruct (String.eqb_spec (strings.TrimSpace funcName) maxTag) as [-> | _].
  { destruct (strconv.ParseInt _ _ _) as [n [e |]]; intros H; inversion H; auto. }
  discriminate.
Qed.

(** Every rule rejects a nil pointer as a value of the wrong kind. *)
Lemma builds_nil_pointer (rule : string) (vfunc : validationFunc) :
  builds rule vfunc -> vfunc (VPtr None) = Some (invalidFieldType rule).
Proof. intros H. destruct H; reflexivity. Qed.

Lemma builds_known (rule : string) (vfunc : validationFunc) :
  builds rule vfunc -> In rule [lenTag; inTag; minTag; maxTag].
Proof. intros H. destruct H; simpl; auto. Qed.

(** What the parser returns when it returns. *)
Lemma parseValidateTag_Return (tag : string) (r : validationFunc + error) :
  parseValidateTag tag = Return r ->
  exists name param rest,
    strings.SplitN tag ":" 2 = name :: param :: rest
    /\ r = getValidationFunc name param.
Proof.
  unfold parseValidateTag.
  destruct (strings.SplitN tag ":" 2) as [| name [| param rest]];
    simpl; try discriminate.
  intros H. inversion H. eauto.
Qed.

Lemma deref_nilAfter (n : nat) : deref (nilAfter n) = VPtr None.
Proof. induction n; simpl; auto. Qed.

(* ================================================================== *)
(** * The two paths of a nil pointer *)

(** C3: a nil pointer given to [Validate] yields success.  A nil pointer
    that is the value of an annotated, accessible field, directly or at the
    end of a chain of pointers, is what the field's dereference loop stops
    at; it is passed to the rule, and each of the four rules answers with
    its invalid-field-type error, which is appended to the aggregate. *)
Theorem nil_pointer_paths :
  Validate (VPtr None) = Return None
  /\ (forall length, getLenValidationFunc length (VPtr None)
                     = Some (invalidFieldType lenTag))
  /\ (forall strs, getInValidationFunc strs (VPtr None)
                   = Some (invalidFieldType inTag))
  /\ (forall min, getMinValidationFunc min (VPtr None)
                  = Some (invalidFieldType minTag))
  /\ (forall max, getMaxValidationFunc max (VPtr None)
                  = Some (invalidFieldType maxTag))
  /\ (forall fd fv errs vfunc,
        annotation fd <> "" -> annotation fd <> "-" ->
        accessible fd = true ->
        parseValidateTag (annotation fd) = Return (inl vfunc) ->
        deref fv = VPtr None ->
        exists rule,
          In rule [lenTag; inTag; minTag; maxTag]
          /\ vfunc (VPtr None) = Some (invalidFieldType rule)
          /\ validateField fd fv errs
             = Return (errs ++ [{| Err := invalidFieldType rule |}])).
Proof.
  repeat split; try reflexivity.
  intros fd fv errs vfunc He Hd Ha Hp Hnil.
  destruct (parseValidateTag_Return _ _ Hp) as (name & param & rest & _ & Hg).
  symmetry in Hg. apply getValidationFunc_builds in Hg.
  exists (strings.TrimSpace name).
  split; [exact (builds_known _ _ Hg) |].
  pose proof (builds_nil_pointer _ _ Hg) as Hv.
  split; [exact Hv |].
  rewrite (validateField_parses fd fv errs He Hd Ha), Hp. simpl.
  rewrite Hnil, Hv. reflexivity.
Qed.

(** A field of type pointer to pointer to text whose inner pointer is nil,
    for each of the four rules. *)
Lemma nil_pointer_paths_witness :
  Validate (VPtr None) = Return None
  /\ Validate (VStruct [(field "A" "" "len:5" false, nilAfter 1);
                        (field "B" "" "in:a,b" false, nilAfter 0);
                        (field "C" "" "min:1" false, nilAfter 2);
                        (field "D" "" "max:9" false, nilAfter 1)])
     = Return (Some [{| Err := invalidFieldType lenTag |};
                     {| Err := invalidFieldType inTag |};
                     {| Err := invalidFieldType minTag |};
                     {| Err := invalidFieldType maxTag |}])
  /\ exists rule,
       In rule [lenTag; inTag; minTag; maxTag]
       /\ getLenValidationFunc 5 (VPtr None) = Some (invalidFieldType rule)
       /\ validateField (field "A" "" "len:5" false) (nilAfter 1) []
          = Return ([] ++ [{| Err := invalidFieldType rule |}]).
Proof.
  split; [exact (proj1 nil_pointer_paths) |].
  split; [reflexivity |].
  apply (proj2 (proj2 (proj2 (proj2 (proj2 nil_pointer_paths))))
           (field "A" "" "len:5" false) (nilAfter 1) []
           (getLenValidationFunc 5));
    [ discriminate | discriminate | reflexivity | reflexivity | reflexivity ].
Defined.

(* ================================================================== *)
(** * The [in] rule on integers *)

(** An entry of the list that is no integer (after trimming, with base
    prefixes allowed, in 64 bits). *)
Definition unparsable (str : string) : Prop :=
  snd (strconv.ParseInt (strings.TrimSpace str) 0 64) <> None.

Lemma parseEntries_unparsable (strs : list string) :
  (exists str, In str strs /\ unparsable str) ->
  forall in_, parseEntries strs in_ = None.
Proof.
  induction strs as [| str rest IH]; intros [bad [Hin Hbad]] in_.
  - destruct Hin.
  - simpl. unfold unparsable in Hbad.
    destruct (strconv.ParseInt (strings.TrimSpace str) 0 64) as [value [e |]] eqn:E.
    + reflexivity.
    + destruct Hin as [-> | Hin].
      * rewrite E in Hbad. simpl in Hbad. congruence.
      * apply IH. exists bad. split; assumption.
Qed.

(** Building the [in] rule never looks at the entries: for a non-empty
    parameter it returns the rule over the comma-separated parts. *)
Lemma getValidationFunc_in (funcName param : string) :
  strings.TrimSpace funcName = inTag ->
  strings.TrimSpace param <> "" ->
  getValidationFunc funcName param
  = inl (getInValidationFunc (strings.Split (strings.TrimSpace param) ",")).
Proof.
  intros Hn Hp. unfold getValidationFunc. rewrite Hn.
  apply String.eqb_neq in Hp. rewrite Hp. reflexivity.
Qed.

(** C6 (amended): the [in] rule is built for every non-empty parameter,
    without parsing its entries.  When the rule is applied to an integer
    value and some entry is not an integer, the application returns the
    invalid-syntax error, whatever the integer is; the entries are parsed
    at each such application. *)
Theorem in_rule_unparsable_entry (funcName param : string) (i : Z) :
  strings.TrimSpace funcName = inTag ->
  strings.TrimSpace param <> "" ->
  (exists str,
      In str (strings.Split (strings.TrimSpace param) ",")
      /\ unparsable str) ->
  exists vfunc,
    getValidationFunc funcName param = inl vfunc
    /\ vfunc = getInValidationFunc (strings.Split (strings.TrimSpace param) ",")
    /\ vfunc (VInt i) = Some ErrInvalidValidatorSyntax.
Proof.
  intros Hn Hp Hbad.
  exists (getInValidationFunc (strings.Split (strings.TrimSpace param) ",")).
  split; [exact (getValidationFunc_in funcName param Hn Hp) |].
  split; [reflexivity |].
  unfold getInValidationFunc.
  rewrite (parseEntries_unparsable _ Hbad). reflexivity.
Qed.

Lemma in_rule_unparsable_entry_witness :
  exists vfunc,
    getValidationFunc "in" "1,2,x" = inl vfunc
    /\ vfunc = getInValidationFunc
                 (strings.Split (strings.TrimSpace "1,2,x") ",")
    /\ vfunc (VInt 2) = Some ErrInvalidValidatorSyntax.
Proof.
  apply (in_rule_unparsable_entry "in" "1,2,x" 2).
  - reflexivity.
  - discriminate.
  - exists "x". split.
    + vm_compute. auto.
    + unfold unparsable. vm_compute. discriminate.
Defined.

(** C6 (as stated) fails: with the list [1,2,x] the construction of the
    rule does not fail; it returns a rule, which accepts the text [x] and
    answers with the syntax error only once it is applied to an integer. *)
Lemma in_rule_construction_succeeds :
  getValidationFunc "in" "1,2,x" = inl (getInValidationFunc ["1"; "2"; "x"])
  /\ getInValidationFunc ["1"; "2"; "x"] (VString "x") = None
  /\ getInValidationFunc ["1"; "2"; "x"] (VInt 2)
     = Some ErrInvalidValidatorSyntax.
Proof. repeat split; reflexivity. Qed.

(** Spec section 8: with the list [1,2,3] the value 2 passes and the
    value 4 fails with the membership error; entries may be written with
    spaces and base prefixes. *)
Example in_rule_on_integers :
  getInValidationFunc ["1"; "2"; "3"] (VInt 2) = None
  /\ getInValidationFunc ["1"; "2"; "3"] (VInt 4)
     = Some (errors_New "field value is not in array from tag")
  /\ getInValidationFunc [" 0x10 "; "010"] (VInt 16) = None
  /\ getInValidationFunc [" 0x10 "; "010"] (VInt 8) = None.
Proof. repeat split; reflexivity. Qed.

(** Through the field validator the syntax error is what is recorded. *)
Example validateField_in_unparsable :
  validateField (field "N" "" "in:1,2,x" false) (VInt 2) []
  = Return [{| Err := ErrInvalidValidatorSyntax |}].
Proof. reflexivity. Qed.

(* ================================================================== *)
(** * The aggregate and its order *)

(** The violations of one field, after section 4.3 of the specification:
    nothing for an excluded field, the accessibility error for an
    inaccessible one, the syntax error for an annotation that does not
    parse, and otherwise what the rule says of the dereferenced value. *)
Definition fieldViolations (fd : StructField) (fv : Value)
  : list ValidationError :=
  if String.eqb (annotation fd) "" || String.eqb (annotation fd) "-" then []
  else if negb (accessible fd) then
    [{| Err := ErrValidateForUnexportedFields |}]
  else
    match strings.SplitN (annotation fd) ":" 2 with
    | name :: param :: _ =>
        match getValidationFunc name param with
        | inr err => [{| Err := err |}]
        | inl rule =>
            match rule (deref fv) with
            | Some err => [{| Err := err |}]
            | None => []
            end
        end
    | _ => [{| Err := ErrInvalidValidatorSyntax |}]
    end.

(** The violations of a value, after section 4.4: those of the pointee
    of a pointer, of the fields of a record in declaration order, of the
    elements of a qualifying sequence in index order; one structural error
    for anything else. *)
Fixpoint violations (v : Value) : list ValidationError :=
  match v with
  | VPtr None => []
  | VPtr (Some elem) => violations elem
  | VStruct fields =>
      flat_map (fun field => fieldViolations (fst field) (snd field)) fields
  | VSlice k elems | VArray k elems =>
      if descends k then flat_map violations elems
      else [{| Err := ErrNotStruct |}]
  | VNilSlice k => if descends k then [] else [{| Err := ErrNotStruct |}]
  | _ => [{| Err := ErrNotStruct |}]
  end.

(** A field whose annotation, when it is parsed at all, has its colon. *)
Definition separated (fd : StructField) : bool :=
  String.eqb (annotation fd) "" || String.eqb (annotation fd) "-"
  || negb (accessible fd) || contains (annotation fd) ":".

(** The same for every field the traversal of a value reaches. *)
Fixpoint allSeparated (v : Value) : bool :=
  match v with
  | VPtr (Some elem) => allSeparated elem
  | VStruct fields => forallb (fun field => separated (fst field)) fields
  | VSlice k elems | VArray k elems =>
      if descends k then forallb allSeparated elems else true
  | _ => true
  end.

Lemma Index_present (s : string) (c : ascii) :
  contains s c = true -> 0 <= strings.Index s (String c "").
Proof.
  induction s as [| a t IH]; simpl; intros H.
  - discriminate.
  - destruct (ascii_dec c a) as [-> | Hne].
    + destruct t; simpl; lia.
    + destruct (Ascii.eqb_spec a c) as [-> | _]; [congruence |].
      simpl in H. specialize (IH H).
      destruct (Z.ltb_spec (strings.Index t (String c "")) 0); lia.
Qed.

Lemma SplitN_present (s : string) (c : ascii) :
  contains s c = true ->
  exists name param, strings.SplitN s (String c "") 2 = [name; param].
Proof.
  intros H. pose proof (Index_present s c H) as Hm.
  unfold strings.SplitN, strings.genSplit.
  change (2 =? 0) with false. change (2 <? 0) with false.
  change (String.eqb (String c "") "") with false. cbv iota.
  assert (E : (len s + 1 <? 2) = false).
  { apply Z.ltb_ge. destruct s; [discriminate |].
    unfold len. simpl String.length. lia. }
  rewrite E. change (Z.to_nat (2 - 1)) with 1%nat.
  unfold strings.genSplit_loop.
  destruct (Z.ltb_spec (strings.Index s (String c "")) 0); [lia |].
  eauto.
Qed.

(** The field validator threads the aggregate: it returns what it was
    given, followed by the violations of the field. *)
Lemma validateField_violations (fd : StructField) (fv : Value)
      (errs : ValidationErrors) :
  separated fd = true ->
  validateField fd fv errs = Return (errs ++ fieldViolations fd fv).
Proof.
  unfold separated, validateField, fieldViolations. fold (annotation fd).
  rewrite accessible_guard.
  destruct (String.eqb (annotation fd) "" || String.eqb (annotation fd) "-").
  { intros _. rewrite app_nil_r. reflexivity. }
  destruct (accessible fd); simpl; [| reflexivity].
  intros H. destruct (SplitN_present _ _ H) as (name & param & E).
  unfold parseValidateTag. rewrite E. simpl.
  destruct (getValidationFunc name param) as [rule | err]; [| reflexivity].
  destruct (rule (deref fv)); [reflexivity |].
  rewrite app_nil_r. reflexivity.
Qed.

(** An annotation that is parsed without its colon: the field validator
    panics. *)
Lemma validateField_unseparated (fd : StructField) (fv : Value)
      (errs : ValidationErrors) :
  separated fd = false ->
  validateField fd fv errs = Panic (IndexOutOfRange 1 1).
Proof.
  unfold separated. intros H.
  apply orb_false_iff in H. destruct H as [H Hc].
  apply orb_false_iff in H. destruct H as [H Ha].
  apply orb_false_iff in H. destruct H as [He Hd].
  apply negb_false_iff in Ha. apply String.eqb_neq in He, Hd.
  rewrite (validateField_parses fd fv errs He Hd Ha).
  rewrite (parseValidateTag_no_colon _ Hc). reflexivity.
Qed.

(** A loop whose body appends to the aggregate, or panics on the items
    that are not [ok]: it appends, in order, what each item contributes,
    unless some item makes it panic. *)
Lemma forEach_appends {A B : Type} (f : A -> list B -> exec (list B))
      (ok : A -> bool) (g : A -> list B) (e : runtimeError) (l : list A) :
  Forall (fun x => forall acc,
              f x acc = if ok x then Return (acc ++ g x) else Panic e) l ->
  forall acc,
    forEach f l acc
    = if forallb ok l then Return (acc ++ flat_map g l) else Panic e.
Proof.
  induction 1 as [| x rest Hx _ IH]; intros acc; simpl.
  - rewrite app_nil_r. reflexivity.
  - rewrite Hx. destruct (ok x); simpl; [| reflexivity].
    rewrite IH, app_assoc. reflexivity.
Qed.

(** The traversal, completely: it returns the aggregate it was given
    followed by the violations of the value, unless it reaches a field
    whose annotation is parsed without its colon. *)
Lemma deepValidate_returns_or_panics (v : Value) (errs : ValidationErrors) :
  deepValidate v errs
  = if allSeparated v then Return (errs ++ violations v)
    else Panic (IndexOutOfRange 1 1).
Proof.
  revert errs.
  induction v as [s | i | | e IH | fields _ | k elems IH | k | k elems IH | o]
    using Value_deep_ind; simpl; intros errs;
    try reflexivity.
  - rewrite app_nil_r. reflexivity.
  - apply IH.
  - apply forEach_appends. apply Forall_forall. intros [fd fv] _ acc. simpl.
    destruct (separated fd) eqn:E.
    + apply validateField_violations. exact E.
    + apply validateField_unseparated. exact E.
  - destruct (descends k); [| reflexivity].
    apply forEach_appends. exact IH.
  - destruct (descends k); [| reflexivity].
    rewrite app_nil_r. reflexivity.
  - destruct (descends k); [| reflexivity].
    apply forEach_appends. exact IH.
Qed.

Lemma deepValidate_violations (v : Value) :
  allSeparated v = true ->
  forall errs, deepValidate v errs = Return (errs ++ violations v).
Proof.
  intros Hs errs. rewrite deepValidate_returns_or_panics, Hs. reflexivity.
Qed.

(** On the values whose parsed annotations all have their colon,
    [Validate] returns [nil] exactly when there is no violation, and
    otherwise the whole aggregate: the violations of every field (in
    declaration order) and of every element (in index order), a failure
    never ending the traversal. *)
Theorem Validate_aggregate (v : Value) :
  allSeparated v = true ->
  (forall errs, deepValidate v errs = Return (errs ++ violations v))
  /\ (Validate v = Return None <-> violations v = [])
  /\ (violations v <> [] -> Validate v = Return (Some (violations v)))
  /\ Validate v <> Return (Some []).
Proof.
  intros Hs. pose proof (deepValidate_violations v Hs) as Hd.
  split; [exact Hd |].
  unfold Validate. rewrite (Hd []). unfold bind. cbn [app].
  destruct (violations v) as [| e es].
  - cbn. repeat split; congruence.
  - destruct (Z.ltb_spec 0 (Z.of_nat (List.length (e :: es)))) as [_ | H];
      [| simpl List.length in H; lia].
    repeat split; congruence.
Qed.

(** A slice of pointers to records: two violations in the first record,
    a nil pointer, one violation in the last record. *)
Definition sample : Value :=
  VSlice reflect.Ptr
    [VPtr (Some (VStruct [(field "A" "" "len:5" false, VString "hell");
                          (field "B" "" "max:9" false, VInt 3);
                          (field "C" "" "min:3" false, VInt 1)]));
     VPtr None;
     VPtr (Some (VStruct [(field "D" "" "in:a,b" false, VString "c")]))].

Lemma Validate_aggregate_witness :
  Validate sample
  = Return (Some [{| Err := errors_New "invalid length" |};
                  {| Err := errors_New "int value less than min" |};
                  {| Err := errors_New "field value is not in array from tag" |}]).
Proof.
  apply (proj1 (proj2 (proj2 (Validate_aggregate sample eq_refl)))).
  discriminate.
Defined.

(** Without any assumption on the annotations: what is already in the
    aggregate has no influence on what a field or a value adds to it, and
    stays in front of it. *)
Lemma validateField_accumulates (fd : StructField) (fv : Value)
      (errs : ValidationErrors) :
  validateField fd fv errs
  = (es <- validateField fd fv [] ;; Return (errs ++ es)).
Proof.
  unfold validateField.
  destruct (_ || _); [simpl; rewrite app_nil_r; reflexivity |].
  destruct (_ && _); [reflexivity |].
  destruct (parseValidateTag _) as [[vfunc | err] | e]; simpl;
    try reflexivity.
  destruct (vfunc (deref fv)); simpl; [reflexivity |].
  rewrite app_nil_r. reflexivity.
Qed.

Lemma forEach_accumulates {A B : Type} (f : A -> list B -> exec (list B))
      (l : list A) :
  Forall (fun x => forall acc, f x acc = (es <- f x [] ;; Return (acc ++ es))) l ->
  forall acc,
    forEach f l acc = (es <- forEach f l [] ;; Return (acc ++ es)).
Proof.
  induction 1 as [| x rest Hx _ IH]; intros acc; simpl.
  - rewrite app_nil_r. reflexivity.
  - rewrite Hx. destruct (f x []) as [es | e]; simpl; [| reflexivity].
    rewrite IH. rewrite (IH es).
    destruct (forEach f rest []) as [es' | e]; simpl; [| reflexivity].
    rewrite app_assoc. reflexivity.
Qed.

Lemma deepValidate_accumulates (v : Value) (errs : ValidationErrors) :
  deepValidate v errs = (es <- deepValidate v [] ;; Return (errs ++ es)).
Proof.
  revert errs.
  induction v as [s | i | | e IH | fields _ | k elems IH | k | k elems IH | o]
    using Value_deep_ind; simpl; intros errs;
    try reflexivity.
  - rewrite app_nil_r. reflexivity.
  - apply IH.
  - apply forEach_accumulates. apply Forall_forall. intros [fd fv] _ acc.
    apply validateField_accumulates.
  - destruct (descends k); [| reflexivity].
    apply forEach_accumulates. exact IH.
  - destruct (descends k); [| reflexivity].
    simpl. rewrite app_nil_r. reflexivity.
  - destruct (descends k); [| reflexivity].
    apply forEach_accumulates. exact IH.
Qed.

(** An annotation without colon in a later field loses the violations
    recorded before it: the panic leaves the loop. *)
Example Validate_panics_after_violation :
  Validate (VStruct [(field "A" "" "len:5" false, VString "hell");
                     (field "B" "" "len" false, VString "hello")])
  = Panic (IndexOutOfRange 1 1).
Proof. reflexivity. Qed.

(** A record with a violating field followed by a field whose annotation
    has no colon. *)
Definition lostViolation : Value :=
  VStruct [(field "A" "" "len:5" false, VString "hell");
           (field "B" "" "len" false, VString "hello")].

(** C9 (as the code behaves): the aggregate of [lostViolation] is not
    empty: it holds the length error of field [A], which the field
    validator records, and the syntax error of field [B].  [Validate]
    returns neither [nil] nor that aggregate: the parser panics on the
    annotation of [B], the traversal stops there, and the violation of
    [A] is lost with it. *)
Theorem Validate_aggregate_lost :
  violations lostViolation
  = [{| Err := errors_New "invalid length" |};
     {| Err := ErrInvalidValidatorSyntax |}]
  /\ validateField (field "A" "" "len:5" false) (VString "hell") []
     = Return [{| Err := errors_New "invalid length" |}]
  /\ validateField (field "B" "" "len" false) (VString "hello")
                   [{| Err := errors_New "invalid length" |}]
     = Panic (IndexOutOfRange 1 1)
  /\ allSeparated lostViolation = false
  /\ deepValidate lostViolation [] = Panic (IndexOutOfRange 1 1)
  /\ Validate lostViolation = Panic (IndexOutOfRange 1 1).
Proof.
  assert (Hs : allSeparated lostViolation = false) by reflexivity.
  split; [reflexivity |].
  split; [reflexivity |].
  split; [apply validateField_unseparated; reflexivity |].
  split; [exact Hs |].
  split.
  - rewrite deepValidate_returns_or_panics, Hs. reflexivity.
  - unfold Validate. rewrite deepValidate_returns_or_panics, Hs. reflexivity.
Qed.

(* ================================================================== *)
(** * Rendering and matching the aggregate *)

Lemma append_assoc (a b c : string) :
  ((a ++ b) ++ c)%string = (a ++ (b ++ c))%string.
Proof. induction a; simpl; congruence. Qed.

Lemma append_empty (a : string) : (a ++ "")%string = a.
Proof. induction a; simpl; congruence. Qed.

Lemma take_app (s t : string) : take (String.length s) (s ++ t) = s.
Proof. induction s; simpl; [destruct t; reflexivity | congruence]. Qed.

Lemma take_all (s : string) : take (String.length s) s = s.
Proof. induction s; simpl; congruence. Qed.

(** Cutting a suffix that was just appended gives back the string. *)
Lemma TrimSuffix_app (s suffix : string) :
  strings.TrimSuffix (s ++ suffix) suffix = s.
Proof.
  unfold strings.TrimSuffix, strings.HasSuffix, slice, len.
  rewrite length_app.
  assert (E1 : Z.of_nat (String.length s + String.length suffix)
               - Z.of_nat (String.length suffix)
               = Z.of_nat (String.length s)) by lia.
  rewrite E1.
  replace (Z.of_nat (String.length s + String.length suffix)
           - Z.of_nat (String.length s))
    with (Z.of_nat (String.length suffix)) by lia.
  rewrite !Nat2Z.id, Z.sub_0_r, Nat2Z.id. simpl drop.
  rewrite drop_app, take_all, String.eqb_refl, take_app.
  destruct (Z.leb_spec (Z.of_nat (String.length suffix))
                       (Z.of_nat (String.length s + String.length suffix)));
    [reflexivity | lia].
Qed.

(** [strings.Join(elems, sep)], as its documentation defines it. *)
Fixpoint join (elems : list string) (sep : string) : string :=
  match elems with
  | [] => ""
  | [x] => x
  | x :: rest => (x ++ sep ++ join rest sep)%string
  end.

Definition messages (v : ValidationErrors) : list string :=
  map (fun verr => Error (Err verr)) v.

Lemma Error_loop_join (v : ValidationErrors) (sb : string) :
  v <> [] ->
  Error_loop v sb = (sb ++ join (messages v) ": " ++ ": ")%string.
Proof.
  revert sb. induction v as [| verr rest IH]; intros sb Hne; [congruence |].
  destruct rest as [| verr' rest'].
  - reflexivity.
  - change (Error_loop (verr :: verr' :: rest') sb)
      with (Error_loop (verr' :: rest')
              (sb ++ Sprintf_s_colon (Error (Err verr)))%string).
    rewrite IH by discriminate.
    unfold Sprintf_s_colon.
    change (messages (verr :: verr' :: rest'))
      with (Error (Err verr) :: messages (verr' :: rest')).
    change (join (Error (Err verr) :: messages (verr' :: rest')) ": ")
      with (Error (Err verr) ++ ": " ++ join (messages (verr' :: rest')) ": ")%string.
    rewrite !append_assoc. reflexivity.
Qed.

(** X1: [Error()] renders the messages of the errors in order, joined
    with [": "]: nothing for an empty aggregate, and no separator after
    the last message. *)
Theorem ValidationErrors_Error_join (v : ValidationErrors) :
  ValidationErrors_Error v = join (messages v) ": ".
Proof.
  unfold ValidationErrors_Error. destruct v as [| verr rest].
  - reflexivity.
  - rewrite Error_loop_join by discriminate.
    change ("" ++ ?x)%string with x. simpl append at 1.
    apply TrimSuffix_app.
Qed.

Example ValidationErrors_Error_two :
  ValidationErrors_Error
    [{| Err := ErrNotStruct |}; {| Err := errors_New "invalid length" |}]
  = "wrong argument given, should be a struct: invalid length".
Proof. reflexivity. Qed.

(** The three package-level errors. *)
Definition sentinel (e : error) : Prop :=
  e = ErrNotStruct \/ e = ErrInvalidValidatorSyntax
  \/ e = ErrValidateForUnexportedFields.

Lemma errors_Is_sentinel (e target : error) :
  sentinel target -> errors_Is e target = true <-> e = target.
Proof.
  intros [-> | [-> | ->]]; destruct e; simpl; split; intros H;
    try reflexivity; try discriminate; congruence.
Qed.

Lemma Is_app (a b : ValidationErrors) (target : error) :
  Is (a ++ b) target = Is a target || Is b target.
Proof.
  induction a as [| verr rest IH]; simpl; [reflexivity |].
  destruct (errors_Is (Err verr) target); [reflexivity | exact IH].
Qed.

Lemma Is_exists (v : ValidationErrors) (target : error) :
  Is v target = true
  <-> exists verr, In verr v /\ errors_Is (Err verr) target = true.
Proof.
  induction v as [| verr rest IH]; simpl.
  - split; [discriminate | intros (? & [] & _)].
  - destruct (errors_Is (Err verr) target) eqn:E.
    + split; [intros _; exists verr; auto | reflexivity].
    + rewrite IH. split.
      * intros (x & Hin & Hx). exists x. auto.
      * intros (x & [<- | Hin] & Hx); [congruence | exists x; auto].
Qed.

(** X2: for each of the three package-level errors, [Is] answers true
    exactly when that very error is an element of the aggregate; the
    errors the rules make on the spot never match one of them. *)
Theorem Is_sentinel_member (v : ValidationErrors) (target : error) :
  sentinel target ->
  Is v target = true <-> In {| Err := target |} v.
Proof.
  intros Hs. rewrite Is_exists. split.
  - intros ([e] & Hin & He). simpl in He.
    apply (errors_Is_sentinel e target Hs) in He. subst. exact Hin.
  - intros Hin. exists {| Err := target |}. split; [exact Hin |].
    simpl. apply (errors_Is_sentinel target target Hs). reflexivity.
Qed.

Lemma Is_sentinel_member_witness :
  Is [{| Err := errors_New "invalid length" |}; {| Err := ErrNotStruct |}]
     ErrNotStruct = true
  <-> In {| Err := ErrNotStruct |}
         [{| Err := errors_New "invalid length" |}; {| Err := ErrNotStruct |}].
Proof.
  apply (Is_sentinel_member
           [{| Err := errors_New "invalid length" |}; {| Err := ErrNotStruct |}]
           ErrNotStruct).
  left. reflexivity.
Defined.

(* ================================================================== *)
(** * What the parser accepts *)

Definition knownRule (name : string) : Prop :=
  In name [lenTag; inTag; minTag; maxTag].

(** X3: the only error [getValidationFunc] returns is the syntax
    sentinel.  It returns a rule only for one of the four rule names
    (after trimming) with a parameter that is not empty (after trimming),
    and it returns the syntax error whenever the trimmed parameter is
    empty or the trimmed name is not a rule name. *)
Theorem getValidationFunc_outcomes (funcName param : string) :
  (forall err, getValidationFunc funcName param = inr err ->
               err = ErrInvalidValidatorSyntax)
  /\ (forall vfunc, getValidationFunc funcName param = inl vfunc ->
        builds (strings.TrimSpace funcName) vfunc
        /\ knownRule (strings.TrimSpace funcName)
        /\ strings.TrimSpace param <> "")
  /\ (strings.TrimSpace param = "" \/ ~ knownRule (strings.TrimSpace funcName) ->
      getValidationFunc funcName param = inr ErrInvalidValidatorSyntax).
Proof.
  assert (Herr : forall err, getValidationFunc funcName param = inr err ->
                             err = ErrInvalidValidatorSyntax).
  { unfold getValidationFunc. intros err.
    repeat match goal with
           | |- context [if ?b then _ else _] => destruct b
           | |- context [match ?p with (_, _) => _ end] =>
               destruct p as [? [? |]]
           end; intros H; inversion H; reflexivity. }
  assert (Hok : forall vfunc, getValidationFunc funcName param = inl vfunc ->
                  builds (strings.TrimSpace funcName) vfunc
                  /\ knownRule (strings.TrimSpace funcName)
                  /\ strings.TrimSpace param <> "").
  { intros vfunc H. pose proof (getValidationFunc_builds _ _ _ H) as Hb.
    split; [exact Hb |]. split; [exact (builds_known _ _ Hb) |].
    unfold getValidationFunc in H.
    destruct (String.eqb_spec (strings.TrimSpace param) ""); [discriminate |].
    assumption. }
  split; [exact Herr |]. split; [exact Hok |].
  intros Hbad.
  destruct (getValidationFunc funcName param) as [vfunc | err] eqn:E.
  - destruct (Hok vfunc eq_refl) as (_ & Hk & Hp). tauto.
  - rewrite (Herr err eq_refl). reflexivity.
Qed.

Lemma Index_first (name param : string) (c : ascii) :
  contains name c = false ->
  strings.Index (name ++ String c param) (String c "") = len name.
Proof.
  induction name as [| a t IH]; intros H.
  - simpl. destruct (ascii_dec c c); [| congruence].
    destruct param; reflexivity.
  - simpl in H. apply orb_false_iff in H. destruct H as [Hac Ht].
    change ((String a t ++ String c param)%string)
      with (String a (t ++ String c param)%string).
    simpl strings.Index.
    destruct (ascii_dec c a) as [-> | _].
    + rewrite Ascii.eqb_refl in Hac. discriminate.
    + rewrite (IH Ht). rewrite len_String.
      pose proof (len_nonneg t).
      destruct (Z.ltb_spec (len t) 0); lia.
Qed.

Lemma SplitN_first (name param : string) (c : ascii) :
  contains name c = false ->
  strings.SplitN (name ++ String c param) (String c "") 2 = [name; param].
Proof.
  intros H. unfold strings.SplitN, strings.genSplit.
  change (2 =? 0) with false. change (2 <? 0) with false.
  change (String.eqb (String c "") "") with false. cbv iota.
  assert (Hlen : len (name ++ String c param) = len name + 1 + len param).
  { unfold len. rewrite length_app. simpl String.length. lia. }
  pose proof (len_nonneg name). pose proof (len_nonneg param).
  destruct (Z.ltb_spec (len (name ++ String c param) + 1) 2); [lia |].
  change (Z.to_nat (2 - 1)) with 1%nat.
  unfold strings.genSplit_loop. rewrite (Index_first name param c H).
  destruct (Z.ltb_spec (len name) 0); [lia |].
  f_equal; [| f_equal].
  - unfold slice. rewrite Z.add_0_r, Z.sub_0_r. unfold len.
    rewrite Nat2Z.id. simpl drop. apply take_app.
  - unfold slice. rewrite Hlen.
    replace (len name + 1 + len param - (len name + len (String c "")))
      with (len param) by (rewrite len_String; unfold len; simpl; lia).
    replace (Z.to_nat (len name + len (String c "")))
      with (String.length (name ++ String c "")).
    2:{ rewrite length_app. unfold len. simpl String.length. lia. }
    replace (name ++ String c param)%string
      with ((name ++ String c "") ++ param)%string.
    2:{ rewrite append_assoc. reflexivity. }
    rewrite drop_app. unfold len. rewrite Nat2Z.id. apply take_all.
Qed.

Lemma parseValidateTag_first_colon_eq (name param : string) :
  contains name ":" = false ->
  parseValidateTag (name ++ ":" ++ param)
  = Return (getValidationFunc name param).
Proof.
  intros H. unfold parseValidateTag.
  change (":" ++ param)%string with (String ":" param).
  rewrite (SplitN_first name param ":"%char H). reflexivity.
Qed.

(** X4: the annotation is cut at its first colon only: what precedes
    it is the rule name, and everything after it, further colons
    included, is the parameter. *)
Theorem parseValidateTag_first_colon (name param : string) :
  contains name ":" = false ->
  strings.SplitN (name ++ ":" ++ param) ":" 2 = [name; param]
  /\ parseValidateTag (name ++ ":" ++ param)
     = Return (getValidationFunc name param).
Proof.
  intros H. split.
  - exact (SplitN_first name param ":"%char H).
  - exact (parseValidateTag_first_colon_eq name param H).
Qed.

Lemma parseValidateTag_first_colon_witness :
  strings.SplitN ("in" ++ ":" ++ "a:b,c") ":" 2 = ["in"; "a:b,c"]
  /\ parseValidateTag ("in" ++ ":" ++ "a:b,c")
     = Return (getValidationFunc "in" "a:b,c").
Proof.
  apply (parseValidateTag_first_colon "in" "a:b,c"). reflexivity.
Defined.

(* ================================================================== *)
(** * The [in] rule *)

Definition notInList : error :=
  errors_New "field value is not in array from tag".

(** X5: on a text the [in] rule succeeds exactly when the text equals
    one of the entries once that entry is trimmed (the text itself is not
    trimmed); otherwise it returns the membership error.  The entries need
    not be integers. *)
Theorem getInValidationFunc_text (strs : list string) (s : string) :
  (getInValidationFunc strs (VString s) = None
   <-> exists str, In str strs /\ s = strings.TrimSpace str)
  /\ ((forall str, In str strs -> s <> strings.TrimSpace str) ->
      getInValidationFunc strs (VString s) = Some notInList).
Proof.
  unfold getInValidationFunc.
  destruct (existsb (fun str => String.eqb s (strings.TrimSpace str)) strs)
    eqn:E.
  - apply existsb_exists in E. destruct E as (str & Hin & Heq).
    apply String.eqb_eq in Heq. split.
    + split; [intros _; exists str; auto | reflexivity].
    + intros Hno. exfalso. exact (Hno str Hin Heq).
  - split; [| reflexivity].
    split; [discriminate |].
    intros (str & Hin & Heq).
    assert (Ht : existsb (fun str => String.eqb s (strings.TrimSpace str)) strs
                 = true).
    { apply existsb_exists. exists str. split; [exact Hin |].
      apply String.eqb_eq. exact Heq. }
    congruence.
Qed.

(** The integer an entry stands for. *)
Definition entryValue (str : string) : Z :=
  fst (strconv.ParseInt (strings.TrimSpace str) 0 64).

Lemma parseEntries_parsable (strs : list string) :
  (forall str, In str strs -> ~ unparsable str) ->
  forall in_, parseEntries strs in_ = Some (in_ ++ map entryValue strs).
Proof.
  induction strs as [| str rest IH]; intros Hall in_; simpl.
  - rewrite app_nil_r. reflexivity.
  - pose proof (Hall str (or_introl eq_refl)) as Hstr.
    unfold unparsable, entryValue in *.
    destruct (strconv.ParseInt (strings.TrimSpace str) 0 64) as [value [e |]].
    + exfalso. apply Hstr. simpl. discriminate.
    + rewrite IH by (intros; apply Hall; right; assumption).
      rewrite <- app_assoc. reflexivity.
Qed.

Lemma unparsable_dec (str : string) : {unparsable str} + {~ unparsable str}.
Proof.
  unfold unparsable.
  destruct (snd (strconv.ParseInt (strings.TrimSpace str) 0 64)).
  - left. discriminate.
  - right. intros H. apply H. reflexivity.
Qed.

Lemma some_unparsable_dec (strs : list string) :
  (exists str, In str strs /\ unparsable str)
  \/ (forall str, In str strs -> ~ unparsable str).
Proof.
  induction strs as [| str rest [(bad & Hin & Hbad) | IH]].
  - right. intros ? [].
  - left. exists bad. simpl. auto.
  - destruct (unparsable_dec str) as [Hu | Hp].
    + left. exists str. simpl. auto.
    + right. intros x [<- | Hin]; auto.
Qed.

(** X6: on an integer the [in] rule returns the syntax error exactly
    when some entry is not an integer; when every entry is one, it succeeds
    exactly when the integer is the value of one of the entries, and
    returns the membership error otherwise. *)
Theorem getInValidationFunc_integer (strs : list string) (i : Z) :
  (getInValidationFunc strs (VInt i) = Some ErrInvalidValidatorSyntax
   <-> exists str, In str strs /\ unparsable str)
  /\ ((forall str, In str strs -> ~ unparsable str) ->
      (getInValidationFunc strs (VInt i) = None
       <-> In i (map entryValue strs))
      /\ (~ In i (map entryValue strs) ->
          getInValidationFunc strs (VInt i) = Some notInList)).
Proof.
  assert (Hall : (forall str, In str strs -> ~ unparsable str) ->
                 getInValidationFunc strs (VInt i)
                 = if existsb (fun v => v =? i) (map entryValue strs)
                   then None else Some notInList).
  { intros H. unfold getInValidationFunc.
    rewrite (parseEntries_parsable strs H []). reflexivity. }
  assert (Hmem : existsb (fun v => v =? i) (map entryValue strs) = true
                 <-> In i (map entryValue strs)).
  { rewrite existsb_exists. split.
    - intros (x & Hin & Hx). apply Z.eqb_eq in Hx. subst. exact Hin.
    - intros Hin. exists i. split; [exact Hin | apply Z.eqb_refl]. }
  split.
  - split.
    + intros H. destruct (some_unparsable_dec strs) as [Hbad | Hok];
        [exact Hbad |].
      rewrite (Hall Hok) in H.
      destruct (existsb _ _); discriminate.
    + intros Hbad. unfold getInValidationFunc.
      rewrite (parseEntries_unparsable _ Hbad). reflexivity.
  - intros Hok. rewrite (Hall Hok).
    destruct (existsb (fun v => v =? i) (map entryValue strs)) eqn:E.
    + split; [| intros Hn; exfalso; apply Hn, Hmem; reflexivity].
      split; [intros _; apply Hmem; reflexivity | reflexivity].
    + split; [| reflexivity].
      split; [discriminate |].
      intros Hin. apply Hmem in Hin. congruence.
Qed.

(* ================================================================== *)
(** * The kinds a rule accepts *)

(** The kinds of value each rule has a case for. *)
Definition accepts (rule : string) (v : Value) : Prop :=
  (rule = lenTag /\ (isText v \/ isSequence v))
  \/ (rule = inTag /\ (isText v \/ isInteger v))
  \/ ((rule = minTag \/ rule = maxTag)
      /\ (isText v \/ isSequence v \/ isInteger v)).

Ltac decide_kind :=
  unfold accepts, isText, isSequence, isInteger, lenTag, inTag, minTag, maxTag
    in *;
  simpl in *;
  repeat match goal with
         | H : _ /\ _ |- _ => destruct H
         | H : _ \/ _ |- _ => destruct H
         end; try discriminate; try congruence.

Lemma Opaque_not_accepted (rule : string) (o : reflect.Opaque) :
  ~ accepts rule (VOpaque o).
Proof.
  pose proof (Opaque_Kind_other o) as (H1 & H2 & _ & _ & H5 & H6).
  unfold accepts, isText, isSequence, isInteger. simpl. tauto.
Qed.

(** X7: a rule returns its invalid-field-type error exactly on the
    values of a kind it has no case for: [len] takes texts and sequences,
    [in] texts and integers, [min] and [max] texts, sequences and
    integers.  Integers are of kind [Int] only: the sized and unsigned
    integer kinds are rejected by every rule. *)
Theorem rule_rejects_other_kinds (rule : string) (vfunc : validationFunc)
        (v : Value) :
  builds rule vfunc ->
  vfunc v = Some (invalidFieldType rule) <-> ~ accepts rule v.
Proof.
  intros Hb. split.
  - intros Hv Ha. destruct Hb; destruct v; simpl in Hv;
      try (exact (Opaque_not_accepted _ _ Ha));
      repeat match type of Hv with
             | context [if ?b then _ else _] => destruct b
             | context [match ?x with Some _ => _ | None => _ end] =>
                 destruct x
             end; try discriminate; decide_kind.
  - intros Hn.
    destruct Hb; destruct v; try reflexivity; exfalso; apply Hn;
      unfold accepts, isText, isSequence, isInteger; simpl; tauto.
Qed.

Lemma rule_rejects_other_kinds_witness :
  getLenValidationFunc 3 (VInt 3) = Some (invalidFieldType lenTag)
  <-> ~ accepts lenTag (VInt 3).
Proof.
  apply (rule_rejects_other_kinds lenTag (getLenValidationFunc 3) (VInt 3)).
  constructor.
Defined.

(* ================================================================== *)
(** * Counts: bounds and plain text *)

Lemma countRunes_bounds (k : nat) (s : string) (n : Z) :
  n <= utf8.countRunes k s n <= n + Z.of_nat k.
Proof.
  revert s n. induction k as [| k IH]; intros s n; simpl.
  - lia.
  - destruct s as [| a t]; [lia |].
    destruct (utf8.DecodeRuneInString (String a t)) as [r size].
    specialize (IH (drop (Z.to_nat size) (String a t)) (n + 1)). lia.
Qed.

Lemma RuneCountInString_bounds (s : string) :
  0 <= utf8.RuneCountInString s <= len s.
Proof.
  unfold utf8.RuneCountInString, len.
  pose proof (countRunes_bounds (String.length s) s 0). lia.
Qed.

(** The count of a text or of a sequence is its measure, and it is not
    negative. *)
Lemma measure_count (v : Value) :
  isText v \/ isSequence v -> exists m, measure v = Some m /\ 0 <= m.
Proof.
  intros [H | H]; invert_kind H; simpl; eexists; split;
    try reflexivity; try lia.
  apply RuneCountInString_bounds.
Qed.

Lemma getLenValidationFunc_measure (n : Z) (v : Value) (m : Z) :
  isText v \/ isSequence v -> measure v = Some m ->
  getLenValidationFunc n v
  = if m =? n then None else Some (errors_New "invalid length").
Proof.
  intros [H | H] Hm; invert_kind H; simpl in Hm; inversion Hm; subst;
    unfold getLenValidationFunc; cbn [reflect.Len];
    match goal with |- context [?a =? n] => destruct (a =? n) end;
    reflexivity.
Qed.

(** X8: counts are never negative.  With a negative parameter [len]
    and [max] fail on every text and sequence; with a parameter that is
    zero or negative [min] succeeds on every text and sequence. *)
Theorem count_rules_at_zero (n : Z) (v : Value) :
  isText v \/ isSequence v ->
  (n < 0 ->
   getLenValidationFunc n v = Some (errors_New "invalid length")
   /\ exists err, getMaxValidationFunc n v = Some err)
  /\ (n <= 0 -> getMinValidationFunc n v = None).
Proof.
  intros Hk. destruct (measure_count v Hk) as (m & Hm & Hpos).
  split.
  - intros Hn. split.
    + rewrite (getLenValidationFunc_measure n v m Hk Hm).
      destruct (Z.eqb_spec m n); [lia | reflexivity].
    + destruct (getMaxValidationFunc n v) as [err |] eqn:E; [eauto |].
      apply (getMaxValidationFunc_measure n v m Hm) in E. lia.
  - intros Hn. apply (getMinValidationFunc_measure n v m Hm). lia.
Qed.

Lemma count_rules_at_zero_witness :
  (-1 < 0 ->
   getLenValidationFunc (-1) (VString "") = Some (errors_New "invalid length")
   /\ exists err, getMaxValidationFunc (-1) (VString "") = Some err)
  /\ (-1 <= 0 -> getMinValidationFunc (-1) (VString "") = None).
Proof.
  apply (count_rules_at_zero (-1) (VString "")). left. reflexivity.
Defined.

(** Every byte of the text is below [RuneSelf]. *)
Fixpoint allASCII (s : string) : bool :=
  match s with
  | EmptyString => true
  | String a t => (code a <? utf8.RuneSelf) && allASCII t
  end.

Lemma code_range (a : ascii) : 0 <= code a < 256.
Proof.
  unfold code. pose proof (N_ascii_bounded a). lia.
Qed.

Lemma byte_of_code (a : ascii) : byte_of (code a) = a.
Proof.
  unfold byte_of, code. rewrite N2Z.id. apply ascii_N_embedding.
Qed.

Lemma countRunes_ascii (s : string) :
  allASCII s = true ->
  forall (k : nat) (n : Z),
    (String.length s <= k)%nat ->
    utf8.countRunes k s n = n + len s.
Proof.
  induction s as [| a t IH]; intros Hs k n Hk.
  - destruct k; unfold len; simpl; lia.
  - simpl in Hs. apply andb_true_iff in Hs. destruct Hs as [Ha Ht].
    apply Z.ltb_lt in Ha. unfold utf8.RuneSelf in Ha.
    simpl String.length in Hk. destruct k as [| k]; [lia |].
    rewrite countRunes_String.
    pose proof (decode_width_1 (code a) t) as Hw.
    rewrite byte_of_code in Hw.
    rewrite Hw by (pose proof (code_range a); lia).
    simpl drop. rewrite (IH Ht) by lia. rewrite len_String. lia.
Qed.

(** X9: on a text whose bytes are all ASCII the rune count is the byte
    length, so [len] compares the byte length. *)
Theorem getLenValidationFunc_ascii (n : Z) (s : string) :
  allASCII s = true ->
  utf8.RuneCountInString s = len s
  /\ (getLenValidationFunc n (VString s) = None <-> len s = n).
Proof.
  intros Hs.
  assert (E : utf8.RuneCountInString s = len s).
  { unfold utf8.RuneCountInString. rewrite (countRunes_ascii s Hs) by lia.
    lia. }
  split; [exact E |].
  unfold getLenValidationFunc. rewrite E.
  destruct (Z.eqb_spec (len s) n); simpl; split; congruence.
Qed.

Lemma getLenValidationFunc_ascii_witness :
  utf8.RuneCountInString "hello" = len "hello"
  /\ (getLenValidationFunc 5 (VString "hello") = None <-> len "hello" = 5).
Proof.
  apply (getLenValidationFunc_ascii 5 "hello"). reflexivity.
Defined.

(** X10: a text never has more runes than bytes: [max] succeeds once
    the parameter reaches the byte length, and [min] and [len] fail when
    the parameter exceeds it. *)
Theorem text_count_at_most_bytes (n : Z) (s : string) :
  (len s <= n -> getMaxValidationFunc n (VString s) = None)
  /\ (len s < n ->
      getMinValidationFunc n (VString s)
      = Some (errors_New "string length less than min")
      /\ getLenValidationFunc n (VString s)
         = Some (errors_New "invalid length")).
Proof.
  pose proof (RuneCountInString_bounds s) as Hb.
  unfold getMaxValidationFunc, getMinValidationFunc, getLenValidationFunc.
  split; [intros H | intros H; split].
  - destruct (Z.ltb_spec n (utf8.RuneCountInString s)); [lia | reflexivity].
  - destruct (Z.ltb_spec (utf8.RuneCountInString s) n); [reflexivity | lia].
  - destruct (Z.eqb_spec (utf8.RuneCountInString s) n); [lia | reflexivity].
Qed.

(* ================================================================== *)
(** * One field *)

Definition excluded (fd : StructField) : Prop :=
  annotation fd = "" \/ annotation fd = "-".

(** What a field adds to the aggregate, when its validation returns. *)
Inductive fieldResult (fd : StructField) (fv : Value)
  : list ValidationError -> Prop :=
| field_excluded :
    excluded fd -> fieldResult fd fv []
| field_inaccessible :
    ~ excluded fd -> accessible fd = false ->
    fieldResult fd fv [{| Err := ErrValidateForUnexportedFields |}]
| field_syntax (err : error) :
    ~ excluded fd -> accessible fd = true ->
    parseValidateTag (annotation fd) = Return (inr err) ->
    fieldResult fd fv [{| Err := err |}]
| field_violation (vfunc : validationFunc) (err : error) :
    ~ excluded fd -> accessible fd = true ->
    parseValidateTag (annotation fd) = Return (inl vfunc) ->
    vfunc (deref fv) = Some err ->
    fieldResult fd fv [{| Err := err |}]
| field_valid (vfunc : validationFunc) :
    ~ excluded fd -> accessible fd = true ->
    parseValidateTag (annotation fd) = Return (inl vfunc) ->
    vfunc (deref fv) = None ->
    fieldResult fd fv [].

Lemma excluded_eqb (fd : StructField) :
  String.eqb (annotation fd) "" || String.eqb (annotation fd) "-" = true
  <-> excluded fd.
Proof.
  unfold excluded. rewrite orb_true_iff, !String.eqb_eq. reflexivity.
Qed.

Lemma validateField_result (fd : StructField) (fv : Value)
      (errs r : ValidationErrors) :
  validateField fd fv errs = Return r ->
  exists added, r = errs ++ added /\ fieldResult fd fv added.
Proof.
  unfold validateField. fold (annotation fd). rewrite accessible_guard.
  destruct (String.eqb (annotation fd) "" || String.eqb (annotation fd) "-")
    eqn:Ex.
  { intros H. inversion H. exists []. rewrite app_nil_r. split; [reflexivity |].
    apply field_excluded. apply excluded_eqb. exact Ex. }
  assert (Hne : ~ excluded fd).
  { intros H. apply excluded_eqb in H. congruence. }
  destruct (accessible fd) eqn:Ha; simpl.
  2:{ intros H. inversion H. eexists. split; [reflexivity |].
      apply field_inaccessible; assumption. }
  destruct (parseValidateTag (annotation fd)) as [[vfunc | err] | e] eqn:Ep;
    simpl; try discriminate.
  - destruct (vfunc (deref fv)) as [err |] eqn:Ev; intros H; inversion H.
    + eexists. split; [reflexivity |]. eapply field_violation; eassumption.
    + exists []. rewrite app_nil_r. split; [reflexivity |].
      eapply field_valid; eassumption.
  - intros H. inversion H. eexists. split; [reflexivity |].
    eapply field_syntax; eassumption.
Qed.

(** The errors a rule can return: the syntax sentinel (from the [in]
    rule) or an error made on the spot. *)
Lemma rule_errors (rule : string) (vfunc : validationFunc) (v : Value)
      (err : error) :
  builds rule vfunc -> vfunc v = Some err ->
  err = ErrInvalidValidatorSyntax \/ exists text, err = errors_New text.
Proof.
  intros Hb Hv. destruct Hb; destruct v; simpl in Hv;
    repeat match type of Hv with
           | context [if ?b then _ else _] => destruct b
           | context [match ?x with Some _ => _ | None => _ end] =>
               destruct x
           end; inversion Hv; eauto.
Qed.

Lemma parse_rule (tag : string) (vfunc : validationFunc) :
  parseValidateTag tag = Return (inl vfunc) -> exists rule, builds rule vfunc.
Proof.
  intros H. destruct (parseValidateTag_Return _ _ H) as (n & p & r & _ & Hg).
  symmetry in Hg. apply getValidationFunc_builds in Hg. eauto.
Qed.

Lemma parse_error (tag : string) (err : error) :
  parseValidateTag tag = Return (inr err) -> err = ErrInvalidValidatorSyntax.
Proof.
  intros H. destruct (parseValidateTag_Return _ _ H) as (n & p & r & _ & Hg).
  symmetry in Hg. revert Hg. unfold getValidationFunc.
  repeat match goal with
         | |- context [if ?b then _ else _] => destruct b
         | |- context [match ?p with (_, _) => _ end] =>
             destruct p as [? [? |]]
         end; intros Hg; inversion Hg; reflexivity.
Qed.

(** X11: when the validation of a field returns, the aggregate is the
    one it was given, unchanged or with exactly one error appended; that
    error is never [ErrNotStruct]. *)
Theorem validateField_adds_at_most_one (fd : StructField) (fv : Value)
        (errs r : ValidationErrors) :
  validateField fd fv errs = Return r ->
  r = errs
  \/ exists err, r = errs ++ [{| Err := err |}] /\ err <> ErrNotStruct.
Proof.
  intros H. destruct (validateField_result fd fv errs r H) as (added & -> & Hr).
  destruct Hr as [ | | err _ _ Hp | vfunc err _ _ Hp Hv | ].
  - left. apply app_nil_r.
  - right. eexists. split; [reflexivity | discriminate].
  - right. exists err. split; [reflexivity |].
    rewrite (parse_error _ _ Hp). discriminate.
  - right. exists err. split; [reflexivity |].
    destruct (parse_rule _ _ Hp) as (rule & Hb).
    destruct (rule_errors _ _ _ _ Hb Hv) as [-> | (t & ->)]; discriminate.
  - left. apply app_nil_r.
Qed.

Lemma validateField_adds_at_most_one_witness :
  [{| Err := errors_New "invalid length" |}] = []
  \/ exists err,
      [{| Err := errors_New "invalid length" |}] = [] ++ [{| Err := err |}]
      /\ err <> ErrNotStruct.
Proof.
  apply (validateField_adds_at_most_one
           (field "A" "" "len:5" false) (VString "hell") []).
  reflexivity.
Defined.

Lemma getValidationFunc_rejects (funcName param : string) :
  strings.TrimSpace param = "" \/ ~ knownRule (strings.TrimSpace funcName) ->
  getValidationFunc funcName param = inr ErrInvalidValidatorSyntax.
Proof.
  intros Hbad.
  destruct (getValidationFunc funcName param) as [vfunc | err] eqn:E.
  - pose proof (getValidationFunc_builds _ _ _ E) as Hb.
    pose proof (builds_known _ _ Hb) as Hk.
    unfold getValidationFunc in E.
    destruct (String.eqb_spec (strings.TrimSpace param) ""); [discriminate |].
    unfold knownRule in Hbad. tauto.
  - f_equal. revert E. unfold getValidationFunc.
    repeat match goal with
           | |- context [if ?b then _ else _] => destruct b
           | |- context [match ?p with (_, _) => _ end] =>
               destruct p as [? [? |]]
           end; intros Hg; inversion Hg; reflexivity.
Qed.

Lemma contains_app (a b : string) (c : ascii) :
  contains (a ++ b) c = contains a c || contains b c.
Proof.
  induction a as [| x t IH]; simpl; [reflexivity |].
  rewrite IH, orb_assoc. reflexivity.
Qed.

(** X12: an accessible field whose annotation [name:param] has an
    unknown rule name, or a parameter that trims to nothing, records
    exactly the syntax sentinel, whatever the value of the field. *)
Theorem validateField_syntax_error (fd : StructField) (fv : Value)
        (errs : ValidationErrors) (name param : string) :
  accessible fd = true ->
  annotation fd = (name ++ ":" ++ param)%string ->
  contains name ":" = false ->
  strings.TrimSpace param = "" \/ ~ knownRule (strings.TrimSpace name) ->
  validateField fd fv errs
  = Return (errs ++ [{| Err := ErrInvalidValidatorSyntax |}]).
Proof.
  intros Ha Htag Hname Hbad.
  assert (Hc : contains (annotation fd) ":" = true).
  { rewrite Htag, contains_app. simpl. apply orb_true_r. }
  rewrite (validateField_parses fd fv errs);
    try (intros E; rewrite E in Hc; discriminate); [| exact Ha].
  rewrite Htag, (parseValidateTag_first_colon_eq name param Hname).
  simpl. rewrite (getValidationFunc_rejects name param Hbad). reflexivity.
Qed.

Lemma validateField_syntax_error_witness :
  validateField (field "A" "" "size:5" false) (VString "hello") []
  = Return ([] ++ [{| Err := ErrInvalidValidatorSyntax |}]).
Proof.
  apply (validateField_syntax_error
           (field "A" "" "size:5" false) (VString "hello") [] "size" "5").
  - reflexivity.
  - reflexivity.
  - reflexivity.
  - right. unfold knownRule. simpl.
    intros [H | [H | [H | [H | []]]]]; discriminate.
Defined.

(* ================================================================== *)
(** * The traversal, further *)

(** A loop over two lists in a row is the two loops in a row. *)
Lemma forEach_app {A B : Type} (f : A -> B -> exec B) (l1 l2 : list A)
      (acc : B) :
  forEach f (l1 ++ l2) acc = (r <- forEach f l1 acc ;; forEach f l2 r).
Proof.
  revert acc. induction l1 as [| x rest IH]; intros acc; simpl.
  - reflexivity.
  - destruct (f x acc) as [acc' | e]; simpl; [apply IH | reflexivity].
Qed.

Definition validateFields (fields : list (StructField * Value))
           (errs : ValidationErrors) : exec ValidationErrors :=
  forEach (fun field errs => validateField (fst field) (snd field) errs)
          fields errs.

(** What the loop over the fields of a struct returns: the aggregate it
    was given, followed by what each field adds, in order. *)
Lemma validateFields_results (fields : list (StructField * Value)) :
  forall errs r,
    validateFields fields errs = Return r ->
    exists added,
      r = errs ++ List.concat added
      /\ Forall2 (fun field a => fieldResult (fst field) (snd field) a)
                 fields added.
Proof.
  unfold validateFields.
  induction fields as [| [fd fv] rest IH]; intros errs r H; simpl in H.
  - inversion H. exists []. simpl. rewrite app_nil_r. auto.
  - destruct (validateField fd fv errs) as [errs' | e] eqn:E;
      simpl in H; [| discriminate].
    destruct (validateField_result fd fv errs errs' E) as (a & -> & Ha).
    destruct (IH _ _ H) as (added & -> & Hall).
    exists (a :: added). simpl. rewrite app_assoc. auto.
Qed.

Lemma fieldResult_length (fd : StructField) (fv : Value)
      (a : list ValidationError) :
  fieldResult fd fv a -> (List.length a <= 1)%nat.
Proof. intros H. destruct H; simpl; lia. Qed.

Lemma fieldResult_sentinels (fd : StructField) (fv : Value)
      (a : list ValidationError) :
  fieldResult fd fv a ->
  Is a ErrNotStruct = false
  /\ (Is a ErrValidateForUnexportedFields = true
      <-> ~ excluded fd /\ accessible fd = false).
Proof.
  intros H. destruct H as [Hx | Hn Ha | err Hn Ha Hp | vfunc err Hn Ha Hp Hv
                           | vfunc Hn Ha Hp Hv].
  - simpl. split; [reflexivity |]. split; [discriminate | tauto].
  - simpl. split; [reflexivity |]. tauto.
  - rewrite (parse_error _ _ Hp). simpl. split; [reflexivity |].
    split; [discriminate | intros [_ H]; congruence].
  - destruct (parse_rule _ _ Hp) as (rule & Hb).
    destruct (rule_errors _ _ _ _ Hb Hv) as [-> | (t & ->)]; simpl;
      (split; [reflexivity |]);
      (split; [discriminate | intros [_ H]; congruence]).
  - simpl. split; [reflexivity |].
    split; [discriminate | intros [_ H]; congruence].
Qed.

Lemma Validate_struct (fields : list (StructField * Value)) :
  Validate (VStruct fields)
  = (errs <- validateFields fields [] ;;
     Return (match errs with [] => None | _ => Some errs end)).
Proof.
  unfold Validate.
  change (deepValidate (VStruct fields) []) with (validateFields fields []).
  destruct (validateFields fields []) as [errs | e]; simpl; [| reflexivity].
  destruct errs as [| x rest]; [reflexivity |].
  destruct (Z.ltb_spec 0 (Z.of_nat (List.length (x :: rest)))) as [_ | H];
    [reflexivity | simpl List.length in H; lia].
Qed.

(** A field that is excluded, or accessible with a rule its value
    satisfies. *)
Definition satisfied (fd : StructField) (fv : Value) : Prop :=
  excluded fd
  \/ (accessible fd = true
      /\ exists vfunc,
          parseValidateTag (annotation fd) = Return (inl vfunc)
          /\ vfunc (deref fv) = None).

Lemma satisfied_unchanged (fd : StructField) (fv : Value)
      (errs : ValidationErrors) :
  satisfied fd fv -> validateField fd fv errs = Return errs.
Proof.
  intros [Hx | (Ha & vfunc & Hp & Hv)].
  - unfold validateField. fold (annotation fd).
    apply excluded_eqb in Hx. rewrite Hx. reflexivity.
  - unfold validateField. fold (annotation fd). rewrite accessible_guard, Ha.
    destruct (_ || _); [reflexivity |]. simpl.
    rewrite Hp. simpl. rewrite Hv. reflexivity.
Qed.

Lemma fieldResult_nil (fd : StructField) (fv : Value) :
  fieldResult fd fv [] -> satisfied fd fv.
Proof.
  intros H. inversion H; subst; [left; assumption |].
  right. split; [assumption |]. eauto.
Qed.

(** X13: [Validate] returns [nil] on a struct exactly when every field
    is excluded, or is accessible with an annotation that parses to a rule
    its dereferenced value satisfies. *)
Theorem Validate_struct_valid (fields : list (StructField * Value)) :
  Validate (VStruct fields) = Return None
  <-> Forall (fun field => satisfied (fst field) (snd field)) fields.
Proof.
  rewrite Validate_struct. split.
  - intros H.
    destruct (validateFields fields []) as [errs | e] eqn:E;
      simpl in H; [| discriminate].
    destruct errs; [| discriminate].
    destruct (validateFields_results fields [] [] E) as (added & Hc & Hall).
    simpl in Hc. clear E H.
    revert Hc. induction Hall as [| [fd fv] a rest added Ha _ IH];
      intros Hc; constructor.
    + simpl in Hc. symmetry in Hc. apply app_eq_nil in Hc.
      destruct Hc as [-> _]. apply fieldResult_nil. exact Ha.
    + apply IH. simpl in Hc. symmetry in Hc. apply app_eq_nil in Hc.
      symmetry. tauto.
  - intros Hall.
    assert (E : forall errs, validateFields fields errs = Return errs).
    { unfold validateFields. induction Hall as [| [fd fv] rest Hs _ IH];
        intros errs; simpl; [reflexivity |].
      rewrite (satisfied_unchanged fd fv errs Hs). simpl. apply IH. }
    rewrite E. reflexivity.
Qed.

Lemma Validate_struct_Some (fields : list (StructField * Value))
      (errs : ValidationErrors) :
  Validate (VStruct fields) = Return (Some errs) ->
  validateFields fields [] = Return errs /\ errs <> [].
Proof.
  rewrite Validate_struct.
  destruct (validateFields fields []) as [r | e]; simpl; [| discriminate].
  destruct r; intros H; inversion H; subst. split; [reflexivity | discriminate].
Qed.

Lemma concat_length_bound {A B : Type} (P : A -> list B -> Prop)
      (l : list A) (added : list (list B)) :
  (forall x a, P x a -> (List.length a <= 1)%nat) ->
  Forall2 P l added ->
  (List.length (List.concat added) <= List.length l)%nat.
Proof.
  intros HP H. induction H as [| x a l' added' Hx _ IH]; simpl; [lia |].
  rewrite List.length_app. specialize (HP x a Hx). lia.
Qed.

(** X14: a non-nil result of [Validate] on a struct holds at least one
    error and at most one error per field. *)
Theorem Validate_struct_one_per_field (fields : list (StructField * Value))
        (errs : ValidationErrors) :
  Validate (VStruct fields) = Return (Some errs) ->
  (1 <= List.length errs <= List.length fields)%nat.
Proof.
  intros H. destruct (Validate_struct_Some fields errs H) as [E Hne].
  destruct (validateFields_results fields [] errs E) as (added & -> & Hall).
  simpl in *. split.
  - destruct (List.concat added); [congruence | simpl; lia].
  - apply (concat_length_bound _ fields added) in Hall; [exact Hall |].
    intros [fd fv] a Ha. exact (fieldResult_length fd fv a Ha).
Qed.

Lemma Validate_struct_one_per_field_witness :
  (1 <= List.length [{| Err := errors_New "invalid length" |}]
   <= List.length [(field "A" "" "len:5" false, VString "hell");
                   (field "B" "" "" false, VString "hello")])%nat.
Proof.
  apply (Validate_struct_one_per_field
           [(field "A" "" "len:5" false, VString "hell");
            (field "B" "" "" false, VString "hello")]
           [{| Err := errors_New "invalid length" |}]).
  reflexivity.
Defined.

Lemma Is_concat (added : list (list ValidationError)) (target : error) :
  Is (List.concat added) target = existsb (fun a => Is a target) added.
Proof.
  induction added as [| a rest IH]; simpl; [reflexivity |].
  rewrite Is_app, IH. reflexivity.
Qed.

(** A field with an annotation that the validator may not reach. *)
Definition hidden (fd : StructField) : Prop :=
  ~ excluded fd /\ accessible fd = false.

(** X15: the result of [Validate] on a struct never matches
    [ErrNotStruct], and matches [ErrValidateForUnexportedFields] exactly
    when some field is annotated and not accessible. *)
Theorem Validate_struct_sentinels (fields : list (StructField * Value))
        (errs : ValidationErrors) :
  Validate (VStruct fields) = Return (Some errs) ->
  Is errs ErrNotStruct = false
  /\ (Is errs ErrValidateForUnexportedFields = true
      <-> Exists (fun field => hidden (fst field)) fields).
Proof.
  intros H. destruct (Validate_struct_Some fields errs H) as [E _].
  destruct (validateFields_results fields [] errs E) as (added & -> & Hall).
  simpl. rewrite !Is_concat. clear E H.
  induction Hall as [| [fd fv] a rest added' Ha _ [IH1 IH2]]; simpl.
  - split; [reflexivity |]. split; [discriminate | intros H; inversion H].
  - destruct (fieldResult_sentinels fd fv a Ha) as [H1 H2].
    rewrite H1, IH1. split; [reflexivity |].
    rewrite orb_true_iff, H2, IH2, Exists_cons. reflexivity.
Qed.

Lemma Validate_struct_sentinels_witness :
  Is [{| Err := ErrValidateForUnexportedFields |}] ErrNotStruct = false
  /\ (Is [{| Err := ErrValidateForUnexportedFields |}]
         ErrValidateForUnexportedFields = true
      <-> Exists (fun field => hidden (fst field))
                 [(field "a" "pkg" "len:5" false, VString "hello")]).
Proof.
  apply (Validate_struct_sentinels
           [(field "a" "pkg" "len:5" false, VString "hello")]
           [{| Err := ErrValidateForUnexportedFields |}]).
  reflexivity.
Defined.

Lemma validateFields_app (fields1 fields2 : list (StructField * Value))
      (errs : ValidationErrors) :
  validateFields (fields1 ++ fields2) errs
  = (r <- validateFields fields1 errs ;; validateFields fields2 r).
Proof. apply forEach_app. Qed.

(** X16: an excluded field can be removed from a struct without
    changing what [Validate] returns, whatever its value holds (a nested
    struct with violations included): the validator does not descend into
    field values. *)
Theorem Validate_struct_skips_excluded (before after : list (StructField * Value))
        (fd : StructField) (fv : Value) :
  excluded fd ->
  Validate (VStruct (before ++ (fd, fv) :: after))
  = Validate (VStruct (before ++ after)).
Proof.
  intros Hx. rewrite !Validate_struct, !validateFields_app.
  destruct (validateFields before []) as [errs | e]; simpl; [| reflexivity].
  unfold validateFields at 1. simpl forEach.
  rewrite (satisfied_unchanged fd fv errs (or_introl Hx)). reflexivity.
Qed.

Lemma Validate_struct_skips_excluded_witness :
  Validate (VStruct ([(field "A" "" "len:5" false, VString "hell")]
                     ++ (field "B" "" "-" false,
                         VStruct [(field "C" "" "len:1" false, VString "")])
                     :: []))
  = Validate (VStruct ([(field "A" "" "len:5" false, VString "hell")] ++ [])).
Proof.
  apply (Validate_struct_skips_excluded
           [(field "A" "" "len:5" false, VString "hell")] []
           (field "B" "" "-" false)).
  right. reflexivity.
Defined.

(** X17: validating the fields (or the elements of a qualifying slice
    or array) of two lists in a row is validating the first list and then
    the second with the aggregate of the first; a panic in the first part
    stops the second. *)
Theorem traversal_composes (errs : ValidationErrors) :
  (forall fields1 fields2,
      validateStruct (VStruct (fields1 ++ fields2)) errs
      = (r <- validateStruct (VStruct fields1) errs ;;
         validateStruct (VStruct fields2) r))
  /\ (forall k elems1 elems2, descends k = true ->
        deepValidate (VSlice k (elems1 ++ elems2)) errs
        = (r <- deepValidate (VSlice k elems1) errs ;;
           deepValidate (VSlice k elems2) r)
        /\ deepValidate (VArray k (elems1 ++ elems2)) errs
           = (r <- deepValidate (VArray k elems1) errs ;;
              deepValidate (VArray k elems2) r)).
Proof.
  split.
  - intros f1 f2. simpl. apply forEach_app.
  - intros k l1 l2 Hk. simpl. rewrite Hk. split; apply forEach_app.
Qed.

(** [n] non-nil pointers in front of a value. *)
Fixpoint pointerTo (n : nat) (v : Value) : Value :=
  match n with
  | O => v
  | S k => VPtr (Some (pointerTo k v))
  end.

Lemma deref_pointerTo (n : nat) (v : Value) :
  deref (pointerTo n v) = deref v.
Proof. induction n; simpl; auto. Qed.

(** X18: any number of non-nil pointers in front of a value changes
    nothing to [Validate], to [validateStruct] or to the validation of a
    field holding it. *)
Theorem pointers_are_transparent (n : nat) (v : Value) :
  Validate (pointerTo n v) = Validate v
  /\ (forall errs, validateStruct (pointerTo n v) errs = validateStruct v errs)
  /\ (forall fd errs,
        validateField fd (pointerTo n v) errs = validateField fd v errs).
Proof.
  split; [| split].
  - induction n; simpl; [reflexivity | exact IHn].
  - intros errs. induction n; simpl; [reflexivity | exact IHn].
  - intros fd errs. unfold validateField. rewrite deref_pointerTo.
    reflexivity.
Qed.

(** X19: [validateStruct] and [deepValidate] agree on every value
    that, once its pointers are followed, is neither a nil pointer nor a
    qualifying sequence. *)
Theorem validateStruct_deepValidate (v : Value) (errs : ValidationErrors) :
  deref v <> VPtr None -> ~ qualifyingSequence (deref v) ->
  validateStruct v errs = deepValidate v errs.
Proof.
  induction v as [s | i | | e IH | fields _ | k elems _ | k | k elems _ | o]
    using Value_deep_ind; simpl; intros Hn Hq; try reflexivity.
  - congruence.
  - apply IH; assumption.
  - destruct (descends k) eqn:E; [| reflexivity].
    exfalso. apply Hq. unfold qualifyingSequence. simpl.
    split; [auto |]. exists k. split; [reflexivity |].
    destruct k; try discriminate E; auto.
  - destruct (descends k) eqn:E; [| reflexivity].
    exfalso. apply Hq. unfold qualifyingSequence. simpl.
    split; [auto |]. exists k. split; [reflexivity |].
    destruct k; try discriminate E; auto.
  - destruct (descends k) eqn:E; [| reflexivity].
    exfalso. apply Hq. unfold qualifyingSequence. simpl.
    split; [auto |]. exists k. split; [reflexivity |].
    destruct k; try discriminate E; auto.
Qed.

Lemma validateStruct_deepValidate_witness :
  validateStruct (VPtr (Some (VInt 3))) [] = deepValidate (VPtr (Some (VInt 3))) [].
Proof.
  apply (validateStruct_deepValidate (VPtr (Some (VInt 3))) []).
  - discriminate.
  - unfold qualifyingSequence. simpl. intros [[H | H] _]; discriminate.
Defined.

(** Where the two differ: at a nil pointer [validateStruct] reports
    a structural error, [deepValidate] reports nothing. *)
Example validateStruct_nil_pointer :
  forall n errs,
    validateStruct (nilAfter n) errs = Return (errs ++ [{| Err := ErrNotStruct |}])
    /\ deepValidate (nilAfter n) errs = Return errs.
Proof.
  induction n; intros errs; simpl; [split; reflexivity | apply IHn].
Qed.

(** X20: when [deepValidate] returns, its result is the aggregate it
    was given followed by what it returns from the empty aggregate: earlier
    errors are never dropped, reordered or looked at. *)
Theorem deepValidate_extends (v : Value) (errs r : ValidationErrors) :
  deepValidate v errs = Return r ->
  exists added, r = errs ++ added /\ deepValidate v [] = Return added.
Proof.
  rewrite deepValidate_accumulates.
  destruct (deepValidate v []) as [added | e]; simpl; [| discriminate].
  intros H. inversion H. eauto.
Qed.

Lemma deepValidate_extends_witness :
  exists added,
    [{| Err := ErrNotStruct |}; {| Err := errors_New "invalid length" |}]
    = [{| Err := ErrNotStruct |}] ++ added
    /\ deepValidate (VStruct [(field "A" "" "len:5" false, VString "hell")]) []
       = Return added.
Proof.
  apply (deepValidate_extends
           (VStruct [(field "A" "" "len:5" false, VString "hell")])
           [{| Err := ErrNotStruct |}]).
  reflexivity.
Defined.

(** X21: [Validate] returns exactly on the values all of whose parsed
    annotations have a colon, and panics on the others; the only panic it
    can raise is the index out of range of the annotation parser. *)
Theorem Validate_returns_or_panics (v : Value) :
  (allSeparated v = true <-> exists r, Validate v = Return r)
  /\ (allSeparated v = false <-> Validate v = Panic (IndexOutOfRange 1 1))
  /\ (forall e, Validate v = Panic e -> e = IndexOutOfRange 1 1).
Proof.
  unfold Validate. rewrite deepValidate_returns_or_panics.
  destruct (allSeparated v); simpl; [destruct (0 <? _) | ];
    repeat split; intros; try discriminate; eauto;
    try match goal with
        | H : exists _, _ |- _ => destruct H; discriminate
        | H : Panic _ = Panic _ |- _ => inversion H; reflexivity
        end.
Qed.

(** X22: validating an accessible (exported or embedded) field never
    adds [ErrValidateForUnexportedFields], nor [ErrNotStruct], to the
    aggregate. *)
Theorem accessible_never_unexported (fd : StructField) (fv : Value)
        (errs r : ValidationErrors) :
  accessible fd = true ->
  validateField fd fv errs = Return r ->
  Is r ErrValidateForUnexportedFields = Is errs ErrValidateForUnexportedFields
  /\ Is r ErrNotStruct = Is errs ErrNotStruct.
Proof.
  intros Ha H.
  destruct (validateField_result fd fv errs r H) as (added & -> & Hr).
  destruct (fieldResult_sentinels fd fv added Hr) as [H1 H2].
  rewrite !Is_app, H1, orb_false_r. split; [| reflexivity].
  destruct (Is added ErrValidateForUnexportedFields) eqn:E.
  - destruct (proj1 H2 eq_refl) as [_ Hf]. congruence.
  - apply orb_false_r.
Qed.

Lemma accessible_never_unexported_witness :
  Is [{| Err := errors_New "invalid length" |}] ErrValidateForUnexportedFields
  = Is [] ErrValidateForUnexportedFields
  /\ Is [{| Err := errors_New "invalid length" |}] ErrNotStruct
     = Is [] ErrNotStruct.
Proof.
  apply (accessible_never_unexported
           (field "base" "pkg" "len:10" true) (VString "hello") []);
    reflexivity.
Defined.

Lemma Validate_None (v : Value) :
  Validate v = Return None <-> deepValidate v [] = Return [].
Proof.
  unfold Validate. destruct (deepValidate v []) as [errs | e]; simpl.
  - destruct errs as [| x rest].
    + split; reflexivity.
    + destruct (Z.ltb_spec 0 (Z.of_nat (List.length (x :: rest)))) as [_ | H];
        [| simpl List.length in H; lia].
      split; discriminate.
  - split; discriminate.
Qed.

Lemma forEach_deepValidate_nil (elems : list Value) :
  forEach deepValidate elems [] = Return []
  <-> Forall (fun e => deepValidate e [] = Return []) elems.
Proof.
  induction elems as [| e rest IH]; simpl.
  - split; [constructor | reflexivity].
  - split.
    + destruct (deepValidate e []) as [added | err] eqn:E; simpl;
        [| discriminate].
      intros H. rewrite (forEach_accumulates deepValidate rest) in H.
      2:{ apply Forall_forall. intros x _ acc. apply deepValidate_accumulates. }
      unfold ValidationErrors in *.
      match type of H with
      | context [@forEach ?A ?B ?f ?l ?a] =>
          destruct (@forEach A B f l a) as [more | err] eqn:E'
      end; simpl in H; [| discriminate].
      injection H as Hnil. apply app_eq_nil in Hnil. destruct Hnil; subst.
      constructor; [exact E | apply IH; reflexivity].
    + intros H. inversion H as [| ? ? He Hrest]; subst.
      rewrite He. simpl. apply IH. exact Hrest.
Qed.

(** X23: [Validate] returns [nil] on a qualifying slice or array
    exactly when it returns [nil] on each of its elements. *)
Theorem Validate_sequence_valid (k : reflect.Kind) (elems : list Value) :
  descends k = true ->
  (Validate (VSlice k elems) = Return None
   <-> Forall (fun e => Validate e = Return None) elems)
  /\ (Validate (VArray k elems) = Return None
      <-> Forall (fun e => Validate e = Return None) elems).
Proof.
  intros Hk.
  assert (E : Forall (fun e => Validate e = Return None) elems
              <-> Forall (fun e => deepValidate e [] = Return []) elems).
  { rewrite !Forall_forall. split; intros H x Hx; apply Validate_None; auto. }
  split; rewrite Validate_None, E; simpl; rewrite Hk;
    apply forEach_deepValidate_nil.
Qed.

Lemma Validate_sequence_valid_witness :
  (Validate (VSlice reflect.Ptr [VPtr None; VPtr (Some (VStruct []))])
   = Return None
   <-> Forall (fun e => Validate e = Return None)
              [VPtr None; VPtr (Some (VStruct []))])
  /\ (Validate (VArray reflect.Ptr [VPtr None; VPtr (Some (VStruct []))])
      = Return None
      <-> Forall (fun e => Validate e = Return None)
                 [VPtr None; VPtr (Some (VStruct []))]).
Proof.
  apply (Validate_sequence_valid
           reflect.Ptr [VPtr None; VPtr (Some (VStruct []))]).
  reflexivity.
Defined.
